(** * A verified model of [search_client.py]

    The script authenticates against Globus Auth (native-app flow with a
    JSON token cache, or client-credentials flow), builds an authorizer and
    runs one search query.  This development embeds the script's functions
    in Rocq and proves properties of the token cache, of the two authorizer
    factories and of [main].

    Layout:
    - Python values and the [json] codec ([json.dump] / [json.load]);
    - the world the script runs in (files, environment, console, SDK) and
      a small state-and-exception monad;
    - the functions of [search_client.py], in source order;
    - the theorems. *)

From Stdlib Require Import ZArith Ascii String List Bool Lia DecimalZ DecimalFacts DecimalPos.
From stdpp Require Import base option list strings gmap.

Local Open Scope Z_scope.
Local Set Warnings "-register-all".
Local Arguments String.append !s1 s2 /.

(** ** Python values

    The values the script handles are the JSON-representable ones: [None],
    booleans, integers, strings, lists and string-keyed dicts.  A dict keeps
    its insertion order, as in Python, and is modelled as an association
    list; a well-formed dict has no repeated key.  Strings are sequences of
    code points below 256.  Floats are outside the model. *)

Inductive json : Type :=
| JNull
| JBool (b : bool)
| JInt (n : Z)
| JStr (s : string)
| JArr (xs : list json)
| JObj (kvs : list (string * json)).

(** Induction principle that reaches the values nested in lists and dicts. *)
Section json_induction.
Variable P : json -> Prop.
Hypothesis Hnull : P JNull.
Hypothesis Hbool : forall b, P (JBool b).
Hypothesis Hint : forall n, P (JInt n).
Hypothesis Hstr : forall s, P (JStr s).
Hypothesis Harr : forall xs, Forall P xs -> P (JArr xs).
Hypothesis Hobj : forall kvs, Forall (fun kv => P (snd kv)) kvs -> P (JObj kvs).

Fixpoint json_nested_ind (v : json) : P v :=
  match v with
  | JNull => Hnull
  | JBool b => Hbool b
  | JInt n => Hint n
  | JStr s => Hstr s
  | JArr xs =>
      Harr xs ((fix go (l : list json) : Forall P l :=
                  match l with
                  | [] => @List.Forall_nil _ P
                  | x :: l' => @List.Forall_cons _ P x l' (json_nested_ind x) (go l')
                  end) xs)
  | JObj kvs =>
      Hobj kvs ((fix go (l : list (string * json)) : Forall (fun kv => P (snd kv)) l :=
                   match l with
                   | [] => @List.Forall_nil _ _
                   | kv :: l' => @List.Forall_cons _ _ kv l' (json_nested_ind (snd kv)) (go l')
                   end) kvs)
  end.
End json_induction.

(** Python truthiness ([if not tokens:]). *)
Definition truthy (v : json) : bool :=
  match v with
  | JNull => false
  | JBool b => b
  | JInt n => negb (n =? 0)
  | JStr s => negb (String.eqb s EmptyString)
  | JArr xs => negb (match xs with [] => true | _ => false end)
  | JObj kvs => negb (match kvs with [] => true | _ => false end)
  end.

(** Dict operations on the association-list model. *)
Fixpoint dict_get (k : string) (d : list (string * json)) : option json :=
  match d with
  | [] => None
  | (k', v) :: d' => if String.eqb k k' then Some v else dict_get k d'
  end.

(** [d[k] = v]: an existing key keeps its position, a new key goes last. *)
Fixpoint dict_set (k : string) (v : json) (d : list (string * json)) : list (string * json) :=
  match d with
  | [] => [(k, v)]
  | (k', v') :: d' =>
      if String.eqb k k' then (k', v) :: d' else (k', v') :: dict_set k v d'
  end.

(** [dict(pairs)]. *)
Definition dict_of_pairs (pairs : list (string * json)) : list (string * json) :=
  fold_left (fun d kv => dict_set (fst kv) (snd kv) d) pairs [].

Fixpoint distinct (ks : list string) : bool :=
  match ks with
  | [] => true
  | k :: ks' => negb (existsb (String.eqb k) ks') && distinct ks'
  end.

(** A value is well formed when no dict in it repeats a key (every Python
    dict satisfies this). *)
Fixpoint wf_json (v : json) : bool :=
  match v with
  | JArr xs => forallb wf_json xs
  | JObj kvs => distinct (map fst kvs) && forallb (fun kv => wf_json (snd kv)) kvs
  | _ => true
  end.

(** ** [json.dumps]: the encoder

    [json.dump(tokens, f)] is called with the defaults: [ensure_ascii=True],
    separators [", "] and [": "], no indentation.  The encoder is written in
    the style of the library's [_iterencode]: each function puts its text in
    front of what follows ([k]). *)

Definition dquote : ascii := "034"%char.
Definition backslash : ascii := "092"%char.

Definition hexdigit (n : N) : ascii :=
  ascii_of_N (if (n <? 10)%N then 48 + n else 87 + n)%N.

(** One character of [encode_basestring_ascii]: the short escapes, then
    [\u00xx] for everything outside the printable ASCII range. *)
Definition escape_char (c : ascii) (k : string) : string :=
  let n := N_of_ascii c in
  if (n =? 34)%N then String backslash (String dquote k)
  else if (n =? 92)%N then String backslash (String backslash k)
  else if (n =? 10)%N then String backslash (String "n" k)
  else if (n =? 13)%N then String backslash (String "r" k)
  else if (n =? 9)%N then String backslash (String "t" k)
  else if (n =? 8)%N then String backslash (String "b" k)
  else if (n =? 12)%N then String backslash (String "f" k)
  else if ((32 <=? n) && (n <=? 126))%N then String c k
  else String backslash (String "u" (String "0" (String "0"
         (String (hexdigit (n / 16)) (String (hexdigit (n mod 16)) k))))).

Fixpoint escape_chars (s : string) (k : string) : string :=
  match s with
  | EmptyString => k
  | String c s' => escape_char c (escape_chars s' k)
  end.

Definition write_string (s : string) (k : string) : string :=
  String dquote (escape_chars s (String dquote k)).

Fixpoint write_uint (u : Decimal.uint) (k : string) : string :=
  match u with
  | Decimal.Nil => k
  | Decimal.D0 u' => String "0" (write_uint u' k)
  | Decimal.D1 u' => String "1" (write_uint u' k)
  | Decimal.D2 u' => String "2" (write_uint u' k)
  | Decimal.D3 u' => String "3" (write_uint u' k)
  | Decimal.D4 u' => String "4" (write_uint u' k)
  | Decimal.D5 u' => String "5" (write_uint u' k)
  | Decimal.D6 u' => String "6" (write_uint u' k)
  | Decimal.D7 u' => String "7" (write_uint u' k)
  | Decimal.D8 u' => String "8" (write_uint u' k)
  | Decimal.D9 u' => String "9" (write_uint u' k)
  end.

(** [int.__repr__]: decimal digits, a minus sign for negatives. *)
Definition write_int (n : Z) (k : string) : string :=
  match Z.to_int n with
  | Decimal.Pos u => write_uint u k
  | Decimal.Neg u => String "-" (write_uint u k)
  end.

Fixpoint write (v : json) (k : string) : string :=
  match v with
  | JNull => "null" +:+ k
  | JBool true => "true" +:+ k
  | JBool false => "false" +:+ k
  | JInt n => write_int n k
  | JStr s => write_string s k
  | JArr [] => "[]" +:+ k
  | JArr (x :: xs) =>
      String "[" (write x
        (fold_right (fun y acc => ", " +:+ write y acc) (String "]" k) xs))
  | JObj [] => "{}" +:+ k
  | JObj ((key, x) :: kvs) =>
      String "{" (write_string key (": " +:+ write x
        (fold_right (fun kv acc => ", " +:+ write_string (fst kv) (": " +:+ write (snd kv) acc))
                    (String "}" k) kvs)))
  end.

Definition dumps (v : json) : string := write v EmptyString.

(** ** [json.loads]: the decoder

    The decoder follows the library's scanner ([scan_once], [JSONObject],
    [JSONArray], [py_scanstring] in strict mode).  Two restrictions of the
    model: a number with a fraction or an exponent (a float) and a [\u]
    escape above [00ff] are not decoded; the decoder reports them as errors. *)

Definition is_ws (c : ascii) : bool :=
  let n := N_of_ascii c in
  ((n =? 32) || (n =? 9) || (n =? 10) || (n =? 13))%N.

Fixpoint skip_ws (s : string) : string :=
  match s with
  | String c r => if is_ws c then skip_ws r else s
  | EmptyString => s
  end.

Definition hexval (c : ascii) : option N :=
  let n := N_of_ascii c in
  if ((48 <=? n) && (n <=? 57))%N then Some (n - 48)%N
  else if ((97 <=? n) && (n <=? 102))%N then Some (n - 87)%N
  else if ((65 <=? n) && (n <=? 70))%N then Some (n - 55)%N
  else None.

(** The four hex digits of a [\u] escape, as a code point of the model. *)
Definition unicode_escape (h1 h2 h3 h4 : ascii) : option ascii :=
  match hexval h1, hexval h2, hexval h3, hexval h4 with
  | Some a, Some b, Some c, Some d =>
      if ((a =? 0) && (b =? 0))%N then Some (ascii_of_N (16 * c + d)) else None
  | _, _, _, _ => None
  end.

(** The [BACKSLASH] table of the decoder. *)
Definition unescape (e : ascii) : option ascii :=
  let n := N_of_ascii e in
  if (n =? 34)%N then Some dquote
  else if (n =? 92)%N then Some backslash
  else if (n =? 47)%N then Some "/"%char
  else if (n =? 98)%N then Some "008"%char
  else if (n =? 102)%N then Some "012"%char
  else if (n =? 110)%N then Some "010"%char
  else if (n =? 114)%N then Some "013"%char
  else if (n =? 116)%N then Some "009"%char
  else None.

(** [py_scanstring], entered after the opening quote: the decoded string and
    the text after the closing quote. *)
Fixpoint scanstring (s : string) : option (string * string) :=
  match s with
  | EmptyString => None
  | String c r =>
      if Ascii.eqb c dquote then Some (EmptyString, r)
      else if Ascii.eqb c backslash then
        match r with
        | EmptyString => None
        | String e r1 =>
            if Ascii.eqb e "u" then
              match r1 with
              | String h1 (String h2 (String h3 (String h4 r2))) =>
                  match unicode_escape h1 h2 h3 h4 with
                  | Some ch =>
                      match scanstring r2 with
                      | Some (t, rest) => Some (String ch t, rest)
                      | None => None
                      end
                  | None => None
                  end
              | _ => None
              end
            else
              match unescape e with
              | Some ch =>
                  match scanstring r1 with
                  | Some (t, rest) => Some (String ch t, rest)
                  | None => None
                  end
              | None => None
              end
        end
      else if (N_of_ascii c <? 32)%N then None
      else
        match scanstring r with
        | Some (t, rest) => Some (String c t, rest)
        | None => None
        end
  end.

Definition digit_of (c : ascii) : option (Decimal.uint -> Decimal.uint) :=
  let n := N_of_ascii c in
  if (n =? 48)%N then Some Decimal.D0
  else if (n =? 49)%N then Some Decimal.D1
  else if (n =? 50)%N then Some Decimal.D2
  else if (n =? 51)%N then Some Decimal.D3
  else if (n =? 52)%N then Some Decimal.D4
  else if (n =? 53)%N then Some Decimal.D5
  else if (n =? 54)%N then Some Decimal.D6
  else if (n =? 55)%N then Some Decimal.D7
  else if (n =? 56)%N then Some Decimal.D8
  else if (n =? 57)%N then Some Decimal.D9
  else None.

Fixpoint scan_digits (s : string) : Decimal.uint * string :=
  match s with
  | EmptyString => (Decimal.Nil, s)
  | String c r =>
      match digit_of c with
      | Some d => let '(u, rest) := scan_digits r in (d u, rest)
      | None => (Decimal.Nil, s)
      end
  end.

(** What may follow the integer part of a float literal. *)
Definition starts_float (s : string) : bool :=
  match s with
  | String c _ =>
      let n := N_of_ascii c in ((n =? 46) || (n =? 101) || (n =? 69))%N
  | EmptyString => false
  end.

(** The integer part of [NUMBER_RE]: an optional minus sign, then either a
    single [0] or a digit from 1 to 9 followed by any digits. *)
Definition scan_number (s : string) : option (json * string) :=
  let '(neg, s1) :=
    match s with
    | String c r => if Ascii.eqb c "-" then (true, r) else (false, s)
    | EmptyString => (false, s)
    end in
  match s1 with
  | EmptyString => None
  | String c r =>
      match digit_of c with
      | None => None
      | Some _ =>
          let '(u, rest) :=
            if Ascii.eqb c "0" then (Decimal.D0 Decimal.Nil, r) else scan_digits s1 in
          if starts_float rest then None
          else Some (JInt (Z.of_int (if neg then Decimal.Neg u else Decimal.Pos u)), rest)
      end
  end.

Fixpoint strip_prefix (p s : string) : option string :=
  match p with
  | EmptyString => Some s
  | String a p' =>
      match s with
      | String b s' => if Ascii.eqb a b then strip_prefix p' s' else None
      | EmptyString => None
      end
  end.

(** The loop of [JSONArray], entered at the first element. *)
Fixpoint parse_elements (scan : string -> option (json * string)) (fuel : nat) (s : string)
  : option (list json * string) :=
  match fuel with
  | O => None
  | S fuel' =>
      match scan s with
      | None => None
      | Some (v, r) =>
          match skip_ws r with
          | String c r1 =>
              if Ascii.eqb c "]" then Some ([v], r1)
              else if Ascii.eqb c "," then
                match parse_elements scan fuel' (skip_ws r1) with
                | Some (vs, rest) => Some (v :: vs, rest)
                | None => None
                end
              else None
          | EmptyString => None
          end
      end
  end.

(** The loop of [JSONObject], entered at the opening quote of a key. *)
Fixpoint parse_members (scan : string -> option (json * string)) (fuel : nat) (s : string)
  : option (list (string * json) * string) :=
  match fuel with
  | O => None
  | S fuel' =>
      match s with
      | EmptyString => None
      | String q r =>
          if negb (Ascii.eqb q dquote) then None
          else
            match scanstring r with
            | None => None
            | Some (key, r1) =>
                match skip_ws r1 with
                | String c r2 =>
                    if negb (Ascii.eqb c ":") then None
                    else
                      match scan (skip_ws r2) with
                      | None => None
                      | Some (v, r3) =>
                          match skip_ws r3 with
                          | String d r4 =>
                              if Ascii.eqb d "}" then Some ([(key, v)], r4)
                              else if Ascii.eqb d "," then
                                match parse_members scan fuel' (skip_ws r4) with
                                | Some (kvs, rest) => Some ((key, v) :: kvs, rest)
                                | None => None
                                end
                              else None
                          | EmptyString => None
                          end
                      end
                | EmptyString => None
                end
            end
      end
  end.

(** [scan_once]; [fuel] bounds the nesting depth and the length of the
    loops, and [loads] supplies more than the text can use. *)
Fixpoint scan_once (fuel : nat) (s : string) : option (json * string) :=
  match fuel with
  | O => None
  | S fuel' =>
      match s with
      | EmptyString => None
      | String c r =>
          if Ascii.eqb c dquote then
            match scanstring r with
            | Some (str, rest) => Some (JStr str, rest)
            | None => None
            end
          else if Ascii.eqb c "{" then
            match skip_ws r with
            | String c1 r1 =>
                if Ascii.eqb c1 "}" then Some (JObj [], r1)
                else
                  match parse_members (scan_once fuel') fuel' (String c1 r1) with
                  | Some (pairs, rest) => Some (JObj (dict_of_pairs pairs), rest)
                  | None => None
                  end
            | EmptyString => None
            end
          else if Ascii.eqb c "[" then
            match skip_ws r with
            | String c1 r1 =>
                if Ascii.eqb c1 "]" then Some (JArr [], r1)
                else
                  match parse_elements (scan_once fuel') fuel' (String c1 r1) with
                  | Some (vs, rest) => Some (JArr vs, rest)
                  | None => None
                  end
            | EmptyString => None
            end
          else if Ascii.eqb c "n" then
            match strip_prefix "null" s with
            | Some rest => Some (JNull, rest)
            | None => None
            end
          else if Ascii.eqb c "t" then
            match strip_prefix "true" s with
            | Some rest => Some (JBool true, rest)
            | None => None
            end
          else if Ascii.eqb c "f" then
            match strip_prefix "false" s with
            | Some rest => Some (JBool false, rest)
            | None => None
            end
          else scan_number s
      end
  end.

(** [JSONDecoder.decode]: leading whitespace, one value, trailing
    whitespace, end of text. *)
Definition loads (s : string) : option json :=
  match scan_once (S (String.length s)) (skip_ws s) with
  | Some (v, rest) =>
      match skip_ws rest with
      | EmptyString => Some v
      | String _ _ => None
      end
  | None => None
  end.

(** What follows a value inside the encoder's output: the end of the text,
    or one of [,], []] and [}]. *)
Definition delim (k : string) : bool :=
  match k with
  | EmptyString => true
  | String c _ =>
      let n := N_of_ascii c in ((n =? 44) || (n =? 93) || (n =? 125))%N
  end.

(** Number of nodes of a value; bounds what the decoder needs as fuel. *)
Fixpoint size (v : json) : nat :=
  match v with
  | JArr xs => S (fold_right (fun x acc => size x + acc)%nat O xs)
  | JObj kvs => S (fold_right (fun kv acc => size (snd kv) + acc)%nat O kvs)
  | _ => 1%nat
  end.

(** First characters of an encoded value, and of an encoded number. *)
Definition number_start (c : ascii) : bool :=
  Ascii.eqb c "-" || match digit_of c with Some _ => true | None => false end.

Definition value_start (c : ascii) : bool :=
  Ascii.eqb c dquote || Ascii.eqb c "{" || Ascii.eqb c "[" || Ascii.eqb c "n"
  || Ascii.eqb c "t" || Ascii.eqb c "f" || number_start c.

(** [scan] decodes [y] in front of any continuation the encoder produces. *)
Definition decodes (scan : string -> option (json * string)) (y : json) : Prop :=
  forall k, delim k = true -> scan (write y k) = Some (y, k).

(** ** [json.dumps(obj, indent=4)]

    With an indent the encoder (Python 3) separates items with a comma and a
    newline, keys from values with [": "], and puts every item on a line of
    its own, indented by [indent] spaces per nesting level. *)

Fixpoint spaces (n : nat) (k : string) : string :=
  match n with
  | O => k
  | S n' => String " " (spaces n' k)
  end.

Definition newline_indent (indent level : nat) (k : string) : string :=
  String "010" (spaces (indent * level) k).

Fixpoint write_indent (indent level : nat) (v : json) (k : string) : string :=
  match v with
  | JArr (x :: xs) =>
      String "[" (newline_indent indent (S level) (write_indent indent (S level) x
        (fold_right
           (fun y acc => String "," (newline_indent indent (S level)
                           (write_indent indent (S level) y acc)))
           (newline_indent indent level (String "]" k)) xs)))
  | JObj ((key, x) :: kvs) =>
      String "{" (newline_indent indent (S level) (write_string key (": " +:+
        write_indent indent (S level) x
          (fold_right
             (fun kv acc => String "," (newline_indent indent (S level)
                             (write_string (fst kv) (": " +:+
                               write_indent indent (S level) (snd kv) acc))))
             (newline_indent indent level (String "}" k)) kvs))))
  | _ => write v k
  end.

Definition dumps_indent (indent : nat) (v : json) : string :=
  write_indent indent 0 v EmptyString.

(** ** The world the script runs in *)

(** Exceptions that can reach the script. *)
Inductive exn : Type :=
| FileNotFoundError (path : string)
| PermissionError (path : string)
| JSONDecodeError
| KeyError (key : string)
| TypeError
| EOFError
| GlobusError (message : string).

Inductive result (A : Type) : Type :=
| Ok (a : A)
| Raise (e : exn).
Arguments Ok {A} a.
Arguments Raise {A} e.


(** [OAuthTokenResponse]: the script reads only [by_resource_server]. *)
Record token_response : Type := { by_resource_server : json }.

(** What a call to a Globus service comes back with: the response, or an
    error of the SDK ([AuthAPIError], [SearchAPIError], a network error). *)
Inductive reply (A : Type) : Type :=
| Reply (a : A)
| Failure (message : string).
Arguments Reply {A} a.
Arguments Failure {A} message.

Definition result_of_reply {A : Type} (r : reply A) : result A :=
  match r with
  | Reply a => Ok a
  | Failure message => Raise (GlobusError message)
  end.

(** The Globus SDK as seen from the script: each call that goes to the
    network is answered by the world. *)
Record sdk : Type := {
  oauth2_get_authorize_url : string -> string -> option string -> string;
  oauth2_exchange_code_for_tokens : string -> reply token_response;
  oauth2_client_credentials_tokens : string -> string -> reply token_response;
  search : json -> string -> string -> reply json
}.

(** What the script does to its surroundings, in order. *)
Inductive event : Type :=
| EvCall (function : string)
| EvOpen (path : string) (mode : string)
| EvPrint (text : string)
| EvInput (prompt : string)
| EvBrowser (name : option string) (url : string)
| EvStartFlow (client_id : string) (requested_scopes : option string)
              (redirect_uri : string) (refresh_tokens : bool)
| EvExchangeCode (auth_code : string)
| EvClientCredentials (client_id client_secret : string)
| EvSearch (access_token : json) (index : string) (query : string).

Record world : Type := {
  files : gmap string string;          (* path to content *)
  unwritable : string -> bool;         (* [open(path, 'w')] fails *)
  environ : gmap string string;        (* [os.environ] *)
  platform : string;                   (* [sys.platform] *)
  stdin : list string;                 (* lines the user will type *)
  globus : sdk;
  trace : list event                   (* oldest first *)
}.

Definition log (e : event) (w : world) : world :=
  {| files := files w; unwritable := unwritable w; environ := environ w;
     platform := platform w; stdin := stdin w; globus := globus w;
     trace := trace w ++ [e] |}.

Definition set_files (f : gmap string string) (w : world) : world :=
  {| files := f; unwritable := unwritable w; environ := environ w;
     platform := platform w; stdin := stdin w; globus := globus w;
     trace := trace w |}.

Definition set_stdin (l : list string) (w : world) : world :=
  {| files := files w; unwritable := unwritable w; environ := environ w;
     platform := platform w; stdin := l; globus := globus w;
     trace := trace w |}.

(** State and exceptions. *)
Definition M (A : Type) : Type := world -> result A * world.

Definition ret {A : Type} (a : A) : M A := fun w => (Ok a, w).

Definition raise {A : Type} (e : exn) : M A := fun w => (Raise e, w).

Definition bind {A B : Type} (m : M A) (f : A -> M B) : M B :=
  fun w =>
    match m w with
    | (Ok a, w') => f a w'
    | (Raise e, w') => (Raise e, w')
    end.

Notation "x <- m ;; k" := (bind m (fun x => k))
  (at level 100, m at next level, right associativity).
Notation "m ;;; k" := (bind m (fun _ => k))
  (at level 100, right associativity).

(** [try: m except: handler] with a bare [except]: every exception is
    caught; what [m] did before raising stays done. *)
Definition try_except {A : Type} (m : M A) (handler : M A) : M A :=
  fun w =>
    match m w with
    | (Ok a, w') => (Ok a, w')
    | (Raise _, w') => handler w'
    end.

Definition lift {A : Type} (r : result A) : M A := fun w => (r, w).

Definition emit (e : event) : M unit := fun w => (Ok tt, log e w).

(** The events a computation adds to the trace. *)
Definition events_of {A : Type} (m : M A) (w : world) : list event :=
  drop (length (trace w)) (trace (snd (m w))).

(** Subscription [v[k]] with a string key. *)
Definition getitem (v : json) (k : string) : result json :=
  match v with
  | JObj d =>
      match dict_get k d with
      | Some x => Ok x
      | None => Raise (KeyError k)
      end
  | _ => Raise TypeError
  end.

(** [open(path, 'r')] followed by reading the whole file. *)
Definition read_file (path : string) : M string :=
  fun w =>
    let w' := log (EvOpen path "r") w in
    match files w !! path with
    | Some text => (Ok text, w')
    | None => (Raise (FileNotFoundError path), w')
    end.

(** [open(path, 'w')] followed by writing [text]: the file is replaced. *)
Definition write_file (path : string) (text : string) : M unit :=
  fun w =>
    let w' := log (EvOpen path "w") w in
    if unwritable w path then (Raise (PermissionError path), w')
    else (Ok tt, set_files (<[path := text]> (files w)) w').

(** [print(text)]. *)
Definition py_print (text : string) : M unit := emit (EvPrint text).

(** [str.isspace] on the code points of the model, and [str.strip()]. *)
Definition isspace (c : ascii) : bool :=
  let n := N_of_ascii c in
  (((9 <=? n) && (n <=? 13)) || ((28 <=? n) && (n <=? 32)) || (n =? 133) || (n =? 160))%N.

Fixpoint lstrip (s : string) : string :=
  match s with
  | String c r => if isspace c then lstrip r else s
  | EmptyString => s
  end.

Fixpoint rstrip (s : string) : string :=
  match s with
  | String c r =>
      match rstrip r with
      | EmptyString => if isspace c then EmptyString else String c EmptyString
      | r' => String c r'
      end
  | EmptyString => s
  end.

Definition strip (s : string) : string := rstrip (lstrip s).

(** [get_input(prompt)]: [input] (or [raw_input]). *)
Definition get_input (prompt : string) : M string :=
  fun w =>
    let w' := log (EvInput prompt) w in
    match stdin w with
    | line :: rest => (Ok line, set_stdin rest w')
    | [] => (Raise EOFError, w')
    end.

(** ** [search_client.py] *)

Definition CLIENT_ID : string := "6c1629cf-446c-49e7-af95-323c6412397f".
Definition CLIENT_SECRET : string := EmptyString.
Definition APP_AUTHENTICATORS : list string := ["native"; "client-credentials"].
Definition AUTHENTICATION : string := "native".
Definition REDIRECT_URI : string := "https://auth.globus.org/v2/web/auth-code".
Definition SCOPES : string :=
  "openid email profile " +:+ "urn:globus:auth:scope:search.api.globus.org:search".
Definition TOKEN_FILE : string := "refresh-tokens.json".

(** Load a set of saved tokens. *)
Definition load_tokens_from_file (filepath : string) : M json :=
  text <- read_file filepath ;;
  match loads text with
  | Some tokens => ret tokens
  | None => raise JSONDecodeError
  end.

(** Save a set of tokens for later use. *)
Definition save_tokens_to_file (filepath : string) (tokens : json) : M unit :=
  write_file filepath (dumps tokens).

(** Callback passed into the [RefreshTokenAuthorizer]. *)
Definition update_tokens_file_on_refresh (response : token_response) : M unit :=
  save_tokens_to_file TOKEN_FILE (by_resource_server response).

(** [os.environ.get(key, default)]. *)
Definition environ_get (key : string) (default : json) : M json :=
  fun w =>
    (Ok (match environ w !! key with
         | Some v => JStr v
         | None => default
         end), w).

(** Check if this is a remote session: the value of [SSH_TTY] when it is
    set, otherwise that of [SSH_CONNECTION], otherwise [None].  The inner
    call is an argument of the outer one and is evaluated first. *)
Definition is_remote_session : M json :=
  default <- environ_get "SSH_CONNECTION" JNull ;;
  environ_get "SSH_TTY" default.

(** The two authorizers of the SDK the script builds.  The constructors only
    store their arguments. *)
Inductive auth_client : Type :=
| NativeAppAuthClient (client_id : string)
| ConfidentialAppAuthClient (client_id client_secret : string).

Inductive authorizer : Type :=
| RefreshTokenAuthorizer (refresh_token : json) (client : auth_client)
    (access_token expires_at : json) (on_refresh : token_response -> M unit)
| AccessTokenAuthorizer (access_token : json).

(** Native App authentication flow; returns the tokens keyed by service. *)
Definition do_native_app_authentication
    (client_id redirect_uri : string) (requested_scopes : option string) : M json :=
  emit (EvCall "do_native_app_authentication") ;;;
  emit (EvStartFlow client_id requested_scopes redirect_uri true) ;;;
  url <- (fun w => (Ok (oauth2_get_authorize_url (globus w)
                          client_id redirect_uri requested_scopes), w)) ;;
  py_print ("Native App Authorization URL: " +:+ String "010" url) ;;;
  remote <- is_remote_session ;;
  (if negb (truthy remote) then
     platform_name <- (fun w => (Ok (platform w), w)) ;;
     if String.eqb platform_name "darwin"
     then emit (EvBrowser (Some "safari") url)
     else emit (EvBrowser None url)
   else ret tt) ;;;
  line <- get_input "Enter the auth code: " ;;
  let auth_code := strip line in
  emit (EvExchangeCode auth_code) ;;;
  response <- (fun w => (result_of_reply
                           (oauth2_exchange_code_for_tokens (globus w) auth_code), w)) ;;
  ret (by_resource_server response).

Definition get_native_app_authorizer (client_id service : string) : M authorizer :=
  tokens <- try_except (load_tokens_from_file TOKEN_FILE) (ret JNull) ;;
  tokens <- (if negb (truthy tokens) then
               tokens <- do_native_app_authentication client_id REDIRECT_URI (Some SCOPES) ;;
               try_except (save_tokens_to_file TOKEN_FILE tokens) (ret tt) ;;;
               ret tokens
             else ret tokens) ;;
  tokens <- lift (getitem tokens service) ;;
  let client := NativeAppAuthClient client_id in
  refresh_token <- lift (getitem tokens "refresh_token") ;;
  access_token <- lift (getitem tokens "access_token") ;;
  expires_at <- lift (getitem tokens "expires_at_seconds") ;;
  ret (RefreshTokenAuthorizer refresh_token client access_token expires_at
         update_tokens_file_on_refresh).

(** Client credential grant; returns the tokens keyed by service. *)
Definition do_client_credentials_app_authentication
    (client_id client_secret : string) : M json :=
  emit (EvCall "do_client_credentials_app_authentication") ;;;
  emit (EvClientCredentials client_id client_secret) ;;;
  response <- (fun w => (result_of_reply
                           (oauth2_client_credentials_tokens (globus w)
                              client_id client_secret), w)) ;;
  ret (by_resource_server response).

Definition get_confidential_app_authorizer (client_id client_secret : string)
  : M authorizer :=
  tokens <- do_client_credentials_app_authentication client_id client_secret ;;
  transfer_tokens <- lift (getitem tokens "transfer.api.globus.org") ;;
  transfer_access_token <- lift (getitem transfer_tokens "access_token") ;;
  ret (AccessTokenAuthorizer transfer_access_token).

(** The token an authorizer puts in the [Authorization] header. *)
Definition bearer (a : authorizer) : json :=
  match a with
  | RefreshTokenAuthorizer _ _ access_token _ _ => access_token
  | AccessTokenAuthorizer access_token => access_token
  end.

(** [SearchClient(authorizer=a).search(index, q)]; the result is [r.data]. *)
Definition search_client_search (a : authorizer) (index q : string) : M json :=
  emit (EvSearch (bearer a) index q) ;;;
  (fun w => (result_of_reply (search (globus w) (bearer a) index q), w)).

Definition main : M unit :=
  let search_index := "3e117028-2513-4f5b-b53c-90fda3cd328b" in
  let service := "search.api.globus.org" in
  authorizer <- get_native_app_authorizer CLIENT_ID service ;;
  data <- search_client_search authorizer search_index "*" ;;
  py_print (dumps_indent 4 data).

(** ** Reading a trace *)

Definition is_call (function : string) (e : event) : bool :=
  match e with
  | EvCall f => String.eqb f function
  | _ => false
  end.

(** How often an authenticator was invoked. *)
Definition calls (function : string) (t : list event) : nat :=
  length (List.filter (is_call function) t).

Definition is_open (path : string) (e : event) : bool :=
  match e with
  | EvOpen p _ => String.eqb p path
  | _ => false
  end.

(** The [open] calls on [path], with their modes. *)
Definition opens (path : string) (t : list event) : list event :=
  List.filter (is_open path) t.

Definition is_browser (e : event) : bool :=
  match e with
  | EvBrowser _ _ => true
  | _ => false
  end.

(** The browser launches that were attempted. *)
Definition browser_launches (t : list event) : list event :=
  List.filter is_browser t.

Definition is_search (e : event) : bool :=
  match e with
  | EvSearch _ _ _ => true
  | _ => false
  end.

Definition searches (t : list event) : list event :=
  List.filter is_search t.

Definition is_file_event (e : event) : bool :=
  match e with
  | EvOpen _ _ => true
  | _ => false
  end.

(** All the [open] calls, on any path. *)
Definition file_events (t : list event) : list event :=
  List.filter is_file_event t.

(** What a later run of [load_tokens_from_file] would find in the cache:
    the record stored for [service], if the file holds a mapping with one. *)
Definition cached_record (w : world) (service : string) : option json :=
  match files w !! TOKEN_FILE with
  | Some text =>
      match loads text with
      | Some (JObj d) => dict_get service d
      | _ => None
      end
  | None => None
  end.

(** The callback of a refreshing authorizer. *)
Definition on_refresh_of (a : authorizer) : option (token_response -> M unit) :=
  match a with
  | RefreshTokenAuthorizer _ _ _ _ on_refresh => Some on_refresh
  | AccessTokenAuthorizer _ => None
  end.

(** The record of [service] in a token mapping. *)
Definition record_of (tokens : json) (service : string) : option json :=
  match tokens with
  | JObj d => dict_get service d
  | _ => None
  end.

(** ** Sample data *)

Definition sample_record (server access refresh : string) : json :=
  JObj [("scope", JStr "urn:globus:auth:scope:search.api.globus.org:search");
        ("access_token", JStr access);
        ("refresh_token", JStr refresh);
        ("token_type", JStr "Bearer");
        ("expires_at_seconds", JInt 1530000000);
        ("resource_server", JStr server)].

Definition auth_record : json := sample_record "auth.globus.org" "AgAuth" "RtAuth".
Definition search_record : json := sample_record "search.api.globus.org" "AgSearch" "RtSearch".
Definition refreshed_search_record : json :=
  sample_record "search.api.globus.org" "AgSearch2" "RtSearch".

Definition sample_tokens : json :=
  JObj [("auth.globus.org", auth_record); ("search.api.globus.org", search_record)].

Definition sample_data : json :=
  JObj [("count", JInt 1); ("gmeta", JArr [JObj [("subject", JStr "doc")]])].

Definition sample_sdk : sdk :=
  {| oauth2_get_authorize_url := fun client_id _ _ =>
       "https://auth.globus.org/v2/oauth2/authorize?client_id=" +:+ client_id;
     oauth2_exchange_code_for_tokens := fun _ =>
       Reply {| by_resource_server := sample_tokens |};
     oauth2_client_credentials_tokens := fun _ _ =>
       Reply {| by_resource_server :=
                  JObj [("transfer.api.globus.org",
                         JObj [("access_token", JStr "AgTransfer")])] |};
     search := fun _ _ _ => Reply sample_data |}.

(** A first run on a desktop: no cache file, no SSH variables. *)
Definition fresh_world : world :=
  {| files := ∅; unwritable := fun _ => false; environ := ∅; platform := "linux";
     stdin := [" code123 "]; globus := sample_sdk; trace := [] |}.

(** The same with a directory that cannot be written. *)
Definition readonly_world : world :=
  {| files := ∅; unwritable := fun _ => true; environ := ∅; platform := "linux";
     stdin := [" code123 "]; globus := sample_sdk; trace := [] |}.

(** A later run: the cache holds the tokens of both services. *)
Definition cached_world : world :=
  {| files := {[ TOKEN_FILE := dumps sample_tokens ]}; unwritable := fun _ => false;
     environ := ∅; platform := "linux"; stdin := []; globus := sample_sdk; trace := [] |}.

(** The cache holds a well-formed but empty mapping. *)
Definition empty_cache_world : world :=
  {| files := {[ TOKEN_FILE := "{}" ]}; unwritable := fun _ => false;
     environ := ∅; platform := "linux"; stdin := ["code123"]; globus := sample_sdk;
     trace := [] |}.

(** The cache holds text that is not JSON. *)
Definition corrupt_cache_world : world :=
  {| files := {[ TOKEN_FILE := "{not json" ]}; unwritable := fun _ => false;
     environ := ∅; platform := "linux"; stdin := ["code123"]; globus := sample_sdk;
     trace := [] |}.

(** An SSH login where [SSH_TTY] is set to the empty string. *)
Definition ssh_empty_tty_world : world :=
  {| files := ∅; unwritable := fun _ => false;
     environ := {[ "SSH_TTY" := EmptyString; "SSH_CONNECTION" := "10.0.0.1 50000 10.0.0.2 22" ]};
     platform := "linux"; stdin := ["code123"]; globus := sample_sdk; trace := [] |}.

(** The response of a refresh of the search token alone. *)
Definition refresh_response : token_response :=
  {| by_resource_server := JObj [("search.api.globus.org", refreshed_search_record)] |}.

(** ** Notions used to state the properties *)

(** The value [tokens] holds after the [try] of [get_native_app_authorizer]:
    the decoded cache, or [None] when the file is missing or undecodable. *)
Definition cached_tokens (w : world) : json :=
  match files w !! TOKEN_FILE with
  | Some text =>
      match loads text with
      | Some v => v
      | None => JNull
      end
  | None => JNull
  end.

(** The end of [get_native_app_authorizer], from [tokens = tokens[service]]
    on: it touches nothing outside its arguments. *)
Definition authorizer_from (client_id : string) (tokens : json) (service : string)
  : result authorizer :=
  match getitem tokens service with
  | Raise e => Raise e
  | Ok record =>
      match getitem record "refresh_token" with
      | Raise e => Raise e
      | Ok refresh_token =>
          match getitem record "access_token" with
          | Raise e => Raise e
          | Ok access_token =>
              match getitem record "expires_at_seconds" with
              | Raise e => Raise e
              | Ok expires_at =>
                  Ok (RefreshTokenAuthorizer refresh_token (NativeAppAuthClient client_id)
                        access_token expires_at update_tokens_file_on_refresh)
              end
          end
      end
  end.

(** The value [is_remote_session] returns in a world. *)
Definition remote_value (w : world) : json :=
  match environ w !! "SSH_TTY" with
  | Some v => JStr v
  | None =>
      match environ w !! "SSH_CONNECTION" with
      | Some v => JStr v
      | None => JNull
      end
  end.

(** The value of an environment variable is a non-empty string. *)
Definition set_nonempty (w : world) (key : string) : bool :=
  match environ w !! key with
  | Some v => negb (String.eqb v EmptyString)
  | None => false
  end.

(** What the user's next line of input is exchanged for. *)
Definition exchanged (w : world) : result json :=
  match stdin w with
  | [] => Raise EOFError
  | line :: _ =>
      match oauth2_exchange_code_for_tokens (globus w) (strip line) with
      | Reply response => Ok (by_resource_server response)
      | Failure message => Raise (GlobusError message)
      end
  end.

(** The exception is one that reading or decoding the cache file raises. *)
Definition from_cache_file (e : exn) : bool :=
  match e with
  | FileNotFoundError _ | JSONDecodeError => true
  | _ => false
  end.

Definition raises_from_cache_file {A : Type} (r : result A) : bool :=
  match r with
  | Raise e => from_cache_file e
  | Ok _ => false
  end.

(** The index [main] queries. *)
Definition SEARCH_INDEX : string := "3e117028-2513-4f5b-b53c-90fda3cd328b".

(** ** More sample worlds *)

(** The cache holds a JSON list. *)
Definition list_cache_world : world :=
  {| files := {[ TOKEN_FILE := "[1]" ]}; unwritable := fun _ => false;
     environ := ∅; platform := "linux"; stdin := ["code123"]; globus := sample_sdk;
     trace := [] |}.

(** Tokens as a flow without refresh tokens returns them. *)
Definition access_only_tokens : json :=
  JObj [("search.api.globus.org",
         JObj [("access_token", JStr "AgSearch"); ("expires_at_seconds", JInt 1530000000)])].

Definition access_only_world : world :=
  {| files := {[ TOKEN_FILE := dumps access_only_tokens ]}; unwritable := fun _ => false;
     environ := ∅; platform := "linux"; stdin := ["code123"]; globus := sample_sdk;
     trace := [] |}.

(** The identity provider rejects the authorization code. *)
Definition rejecting_sdk : sdk :=
  {| oauth2_get_authorize_url := oauth2_get_authorize_url sample_sdk;
     oauth2_exchange_code_for_tokens := fun _ => Failure "invalid_grant";
     oauth2_client_credentials_tokens := fun _ _ => Failure "invalid_client";
     search := fun _ _ _ => Failure "forbidden" |}.

Definition rejecting_world : world :=
  {| files := {[ "notes.txt" := "keep" ]}; unwritable := fun _ => false; environ := ∅;
     platform := "linux"; stdin := ["bad code"]; globus := rejecting_sdk; trace := [] |}.

(** ** Notions for [str.strip] *)

Fixpoint all_space (s : string) : bool :=
  match s with
  | EmptyString => true
  | String c r => isspace c && all_space r
  end.

Definition starts_with_space (s : string) : bool :=
  match s with
  | String c _ => isspace c
  | EmptyString => false
  end.

Fixpoint ends_with_space (s : string) : bool :=
  match s with
  | EmptyString => false
  | String c EmptyString => isspace c
  | String _ r => ends_with_space r
  end.

(** ** Notions for the text the encoder writes *)

(** Printable ASCII: from the space to the tilde. *)
Definition printable (c : ascii) : bool :=
  let n := N_of_ascii c in ((32 <=? n) && (n <=? 126))%N.

Fixpoint all_printable (s : string) : bool :=
  match s with
  | EmptyString => true
  | String c r => printable c && all_printable r
  end.

(** ** Notions for decoding indented text *)

(** What may follow a number: anything but a digit, a point or an exponent
    mark. *)
Definition number_end (k : string) : bool :=
  match k with
  | EmptyString => true
  | String c _ =>
      match digit_of c with
      | Some _ => false
      | None => negb (starts_float k)
      end
  end.


(** * Properties *)

(** ** The codec on examples *)

Example dumps_sample :
  let q := String dquote EmptyString in
  dumps (JObj [("a", JInt (-12)); ("b", JArr [JNull; JBool true; JStr "x"]); ("c", JObj [])])
  = "{" +:+ q +:+ "a" +:+ q +:+ ": -12, " +:+ q +:+ "b" +:+ q +:+ ": [null, true, "
      +:+ q +:+ "x" +:+ q +:+ "], " +:+ q +:+ "c" +:+ q +:+ ": {}}".
Proof. reflexivity. Qed.

Example loads_sample :
  loads (" { " +:+ String dquote ("k" +:+ String dquote (" :[1 , -20,null],"
          +:+ String dquote ("k" +:+ String dquote ": true } "))))
  = Some (JObj [("k", JBool true)]).
Proof. reflexivity. Qed.

Example loads_roundtrip_sample :
  let v := JObj [("search.api.globus.org",
                  JObj [("access_token", JStr "Ag0"); ("expires_at_seconds", JInt 1530000000);
                        ("refresh_token", JNull)])] in
  loads (dumps v) = Some v.
Proof. reflexivity. Qed.

Example loads_rejects :
  loads "{" = None /\ loads "[1,]" = None /\ loads "01" = None /\ loads EmptyString = None.
Proof. repeat split. Qed.

(** ** Decoding what the encoder wrote *)

Ltac each_ascii c :=
  destruct c as [[] [] [] [] [] [] [] []].

Lemma scanstring_escape_char (c : ascii) (k : string) :
  scanstring (escape_char c k) =
  match scanstring k with
  | Some (t, rest) => Some (String c t, rest)
  | None => None
  end.
Proof. each_ascii c; reflexivity. Qed.

Lemma scanstring_escape_chars (s k : string) :
  scanstring (escape_chars s (String dquote k)) = Some (s, k).
Proof.
  induction s as [|c s IH]; simpl.
  - reflexivity.
  - rewrite scanstring_escape_char, IH. reflexivity.
Qed.

Lemma delim_scan_digits (k : string) :
  delim k = true -> scan_digits k = (Decimal.Nil, k).
Proof.
  destruct k as [|c k]; [reflexivity|].
  each_ascii c; simpl; intros H; try discriminate H; reflexivity.
Qed.

Lemma delim_starts_float (k : string) : delim k = true -> starts_float k = false.
Proof.
  destruct k as [|c k]; [reflexivity|].
  each_ascii c; simpl; intros H; try discriminate H; reflexivity.
Qed.

Lemma delim_skip_ws (k : string) : delim k = true -> skip_ws k = k.
Proof.
  destruct k as [|c k]; [reflexivity|].
  each_ascii c; simpl; intros H; try discriminate H; reflexivity.
Qed.

Lemma scan_digits_write_uint (u : Decimal.uint) (k : string) :
  delim k = true -> scan_digits (write_uint u k) = (u, k).
Proof.
  intros Hk. induction u; simpl; try (rewrite IHu; reflexivity).
  apply delim_scan_digits, Hk.
Qed.

(** The digits of a positive number do not start with a zero. *)
Lemma to_uint_head (p : positive) :
  Pos.to_uint p <> Decimal.Nil /\ forall u, Pos.to_uint p <> Decimal.D0 u.
Proof.
  split; [apply Unsigned.to_uint_nonnil|].
  intros u E.
  assert (Hn : Decimal.unorm (Pos.to_uint p) = Pos.to_uint p).
  { rewrite <- (Unsigned.to_of (Pos.to_uint p)), Unsigned.of_to. reflexivity. }
  rewrite E in Hn. unfold Decimal.unorm in Hn. simpl in Hn.
  destruct (Decimal.nzhead u) eqn:Hz; try discriminate Hn.
  - injection Hn as <-. apply (Unsigned.to_uint_nonzero p). exact E.
  - apply (nzhead_nonzero u u0). rewrite Hz. congruence.
Qed.

Lemma scan_number_write_uint (u : Decimal.uint) (neg : bool) (k : string) :
  delim k = true ->
  u <> Decimal.Nil -> (forall u', u <> Decimal.D0 u') ->
  scan_number (if neg then String "-" (write_uint u k) else write_uint u k)
  = Some (JInt (Z.of_int (if neg then Decimal.Neg u else Decimal.Pos u)), k).
Proof.
  intros Hk Hnil Hz.
  destruct u; try (exfalso; apply Hnil; reflexivity);
    try (exfalso; eapply Hz; reflexivity);
    destruct neg; unfold scan_number; simpl;
    rewrite (scan_digits_write_uint _ _ Hk), (delim_starts_float _ Hk); reflexivity.
Qed.

Lemma scan_number_write_int (n : Z) (k : string) :
  delim k = true -> scan_number (write_int n k) = Some (JInt n, k).
Proof.
  intros Hk. unfold write_int.
  destruct n as [|p|p]; simpl.
  - unfold scan_number; simpl. rewrite (delim_starts_float _ Hk). reflexivity.
  - destruct (to_uint_head p) as [H1 H2].
    rewrite (scan_number_write_uint _ false k Hk H1 H2). simpl.
    change (Z.of_uint (Pos.to_uint p)) with (Z.of_int (Z.to_int (Z.pos p))).
    rewrite DecimalZ.of_to. reflexivity.
  - destruct (to_uint_head p) as [H1 H2].
    rewrite (scan_number_write_uint _ true k Hk H1 H2). simpl.
    change (- Z.of_uint (Pos.to_uint p)) with (Z.of_int (Z.to_int (Z.neg p))).
    rewrite DecimalZ.of_to. reflexivity.
Qed.

Lemma number_start_value_start (c : ascii) : number_start c = true -> value_start c = true.
Proof. unfold value_start. intros ->. repeat rewrite orb_true_r. reflexivity. Qed.

Lemma value_start_facts (c : ascii) :
  value_start c = true ->
  is_ws c = false /\ Ascii.eqb c "]" = false /\ Ascii.eqb c "}" = false.
Proof. each_ascii c; intros H; try discriminate H; repeat split. Qed.

Lemma scan_once_number (fuel : nat) (c : ascii) (r : string) :
  number_start c = true ->
  scan_once (S fuel) (String c r) = scan_number (String c r).
Proof. each_ascii c; intros H; try discriminate H; reflexivity. Qed.

Lemma write_uint_head (u : Decimal.uint) (k : string) :
  u <> Decimal.Nil ->
  exists c r, write_uint u k = String c r /\ number_start c = true.
Proof. destruct u; intros H; try congruence; simpl; eauto. Qed.

Lemma write_int_head (n : Z) (k : string) :
  exists c r, write_int n k = String c r /\ number_start c = true.
Proof.
  unfold write_int. destruct n as [|p|p]; simpl.
  - eauto.
  - apply write_uint_head, to_uint_head.
  - eauto.
Qed.

Lemma write_head (v : json) (k : string) :
  exists c r, write v k = String c r /\ value_start c = true.
Proof.
  destruct v as [| [] | n | s | [|x xs] | [|[key x] kvs]]; simpl; eauto.
  destruct (write_int_head n k) as (c & r & -> & Hc).
  eauto using number_start_value_start.
Qed.

Lemma skip_ws_write (v : json) (k : string) : skip_ws (write v k) = write v k.
Proof.
  destruct (write_head v k) as (c & r & -> & Hc).
  apply value_start_facts in Hc as (Hw & _). simpl. rewrite Hw. reflexivity.
Qed.

Lemma size_pos (v : json) : (1 <= size v)%nat.
Proof. destruct v; simpl; lia. Qed.

Section loops.
Variable scan : string -> option (json * string).

Lemma parse_elements_write (xs : list json) :
  forall (x : json) (n : nat) (k : string),
    Forall (decodes scan) (x :: xs) -> (length xs < n)%nat ->
    parse_elements scan n
      (write x (fold_right (fun y acc => ", " +:+ write y acc) (String "]" k) xs))
    = Some (x :: xs, k).
Proof.
  induction xs as [|y ys IH]; intros x n k Hall Hn;
    destruct n as [|n]; try (simpl in Hn; lia);
    inversion Hall as [|? ? Hx Hrest]; subst; simpl.
  - rewrite Hx by reflexivity. reflexivity.
  - rewrite Hx by reflexivity. simpl. rewrite skip_ws_write.
    assert (E := IH y n k Hrest ltac:(simpl in Hn; lia)).
    simpl in E. rewrite E. reflexivity.
Qed.

Lemma parse_members_write (kvs : list (string * json)) :
  forall (key : string) (x : json) (n : nat) (k : string),
    Forall (fun kv => decodes scan (snd kv)) ((key, x) :: kvs) -> (length kvs < n)%nat ->
    parse_members scan n
      (write_string key (": " +:+ write x
         (fold_right (fun kv acc => ", " +:+ write_string (fst kv) (": " +:+ write (snd kv) acc))
                     (String "}" k) kvs)))
    = Some ((key, x) :: kvs, k).
Proof.
  induction kvs as [|[key' y] ys IH]; intros key x n k Hall Hn;
    destruct n as [|n]; try (simpl in Hn; lia);
    inversion Hall as [|? ? Hx Hrest]; subst; simpl in Hx;
    unfold write_string at 1; simpl; rewrite scanstring_escape_chars; simpl;
    rewrite skip_ws_write.
  - rewrite Hx by reflexivity. reflexivity.
  - rewrite Hx by reflexivity. simpl.
    assert (E := IH key' y n k Hrest ltac:(simpl in Hn; lia)).
    unfold write_string at 1 in E. simpl in E. rewrite E. reflexivity.
Qed.
End loops.

(** *** [dict(pairs)] of pairs with distinct keys *)

Lemma dict_set_fresh (k : string) (v : json) (d : list (string * json)) :
  existsb (String.eqb k) (map fst d) = false -> dict_set k v d = d ++ [(k, v)].
Proof.
  induction d as [|[k' v'] d IH]; simpl; [reflexivity|].
  intros H. apply orb_false_elim in H as [H1 H2].
  rewrite H1, IH by exact H2. reflexivity.
Qed.

Lemma existsb_eqb_app (k : string) (l1 l2 : list string) :
  existsb (String.eqb k) (l1 ++ l2) = existsb (String.eqb k) l1 || existsb (String.eqb k) l2.
Proof. induction l1 as [|a l1 IH]; simpl; [reflexivity|]. rewrite IH, orb_assoc. reflexivity. Qed.

Lemma dict_of_pairs_acc (kvs acc : list (string * json)) :
  distinct (map fst kvs) = true ->
  forallb (fun kv => negb (existsb (String.eqb (fst kv)) (map fst acc))) kvs = true ->
  fold_left (fun d kv => dict_set (fst kv) (snd kv) d) kvs acc = acc ++ kvs.
Proof.
  revert acc. induction kvs as [|[k v] kvs IH]; intros acc Hd Hf; simpl.
  - rewrite app_nil_r. reflexivity.
  - simpl in Hd, Hf.
    apply andb_prop in Hd as [Hk Hd]. apply andb_prop in Hf as [Hka Hf].
    apply negb_true_iff in Hk, Hka.
    rewrite (dict_set_fresh k v acc Hka), IH.
    + rewrite <- app_assoc. reflexivity.
    + exact Hd.
    + clear IH Hd. induction kvs as [|[k' v'] kvs IHk]; simpl; [reflexivity|].
      simpl in Hf, Hk. apply andb_prop in Hf as [Hf1 Hf2].
      apply orb_false_elim in Hk as [Hk1 Hk2].
      rewrite IHk by assumption. rewrite andb_true_r.
      rewrite map_app, existsb_eqb_app. simpl.
      apply negb_true_iff in Hf1. rewrite Hf1. simpl.
      rewrite String.eqb_sym, Hk1. reflexivity.
Qed.

Lemma dict_of_pairs_distinct (kvs : list (string * json)) :
  distinct (map fst kvs) = true -> dict_of_pairs kvs = kvs.
Proof.
  intros Hd. unfold dict_of_pairs. rewrite dict_of_pairs_acc; [reflexivity | exact Hd |].
  clear Hd. induction kvs as [|kv kvs IH]; simpl; [reflexivity | exact IH].
Qed.

(** *** Fuel *)

Lemma size_elements (xs : list json) :
  let total := fold_right (fun x acc => size x + acc)%nat O xs in
  (length xs <= total)%nat /\ Forall (fun x => size x <= total)%nat xs.
Proof.
  induction xs as [|x xs [IH1 IH2]]; simpl; [split; [lia | constructor]|].
  pose proof (size_pos x). split; [lia|].
  constructor; [lia|]. eapply Forall_impl; [exact IH2|]. simpl. intros; lia.
Qed.

Lemma size_members (kvs : list (string * json)) :
  let total := fold_right (fun kv acc => size (snd kv) + acc)%nat O kvs in
  (length kvs <= total)%nat /\ Forall (fun kv => size (snd kv) <= total)%nat kvs.
Proof.
  induction kvs as [|kv kvs [IH1 IH2]]; simpl; [split; [lia | constructor]|].
  pose proof (size_pos (snd kv)). split; [lia|].
  constructor; [lia|]. eapply Forall_impl; [exact IH2|]. simpl. intros; lia.
Qed.

(** *** One value *)

Lemma scan_once_array (fuel : nat) (c : ascii) (r : string) :
  value_start c = true ->
  scan_once (S fuel) (String "[" (String c r)) =
  match parse_elements (scan_once fuel) fuel (String c r) with
  | Some (vs, rest) => Some (JArr vs, rest)
  | None => None
  end.
Proof. each_ascii c; intros H; try discriminate H; reflexivity. Qed.

Lemma scan_once_object (fuel : nat) (r : string) :
  scan_once (S fuel) (String "{" (String dquote r)) =
  match parse_members (scan_once fuel) fuel (String dquote r) with
  | Some (pairs, rest) => Some (JObj (dict_of_pairs pairs), rest)
  | None => None
  end.
Proof. reflexivity. Qed.

Lemma Forall_combine {A : Type} (P Q R : A -> Prop) (f : A -> bool) (l : list A) :
  (forall a, P a -> f a = true -> Q a -> R a) ->
  Forall P l -> forallb f l = true -> Forall Q l -> Forall R l.
Proof.
  intros HR HP. induction HP as [|a l Ha _ IH]; intros Hf HQ; [constructor|].
  simpl in Hf. apply andb_prop in Hf as [Hfa Hf].
  inversion HQ; subst. constructor; auto.
Qed.

Lemma write_arr_cons (x : json) (xs : list json) (k : string) :
  write (JArr (x :: xs)) k =
  String "[" (write x (fold_right (fun y acc => ", " +:+ write y acc) (String "]" k) xs)).
Proof. reflexivity. Qed.

Lemma write_obj_cons (key : string) (x : json) (kvs : list (string * json)) (k : string) :
  write (JObj ((key, x) :: kvs)) k =
  String "{" (write_string key (": " +:+ write x
    (fold_right (fun kv acc => ", " +:+ write_string (fst kv) (": " +:+ write (snd kv) acc))
                (String "}" k) kvs))).
Proof. reflexivity. Qed.

Lemma scan_once_write (v : json) :
  wf_json v = true ->
  forall (fuel : nat) (k : string),
    delim k = true -> (size v <= fuel)%nat ->
    scan_once fuel (write v k) = Some (v, k).
Proof.
  induction v as [| b | n | s | xs IH | kvs IH] using json_nested_ind;
    intros Hwf fuel k Hk Hsz;
    (destruct fuel as [|fuel]; [simpl in Hsz; lia|]).
  - reflexivity.
  - destruct b; reflexivity.
  - simpl write. destruct (write_int_head n k) as (c & r & E & Hc).
    rewrite E, (scan_once_number _ _ _ Hc), <- E.
    apply scan_number_write_int, Hk.
  - simpl. rewrite scanstring_escape_chars. reflexivity.
  - destruct xs as [|x xs]; [reflexivity|].
    rewrite write_arr_cons.
    match goal with |- context [write x ?rest] =>
      destruct (write_head x rest) as (c & r & E & Hc);
      rewrite E, (scan_once_array _ _ _ Hc), <- E
    end.
    simpl in Hsz. destruct (size_elements (x :: xs)) as [Hlen Hall].
    rewrite parse_elements_write; [reflexivity | | simpl in Hlen; simpl; lia].
    refine (Forall_combine _ _ _ wf_json _ _ IH Hwf Hall).
    intros y Hy Hwy Hsy k' Hk'. apply Hy; [exact Hwy | exact Hk' | simpl in Hsy; lia].
  - destruct kvs as [|[key x] kvs]; [reflexivity|].
    rewrite write_obj_cons. unfold write_string at 1. rewrite scan_once_object.
    simpl in Hsz. destruct (size_members ((key, x) :: kvs)) as [Hlen Hall].
    apply andb_prop in Hwf as [Hd Hwf].
    match goal with |- match ?t with _ => _ end = _ =>
      replace t with (Some ((key, x) :: kvs, k))
    end.
    + rewrite dict_of_pairs_distinct by exact Hd. reflexivity.
    + symmetry. apply parse_members_write; [| simpl in Hlen; lia].
      refine (Forall_combine _ _ _ (fun kv => wf_json (snd kv)) _ _ IH Hwf Hall).
      intros y Hy Hwy Hsy k' Hk'. apply Hy; [exact Hwy | exact Hk' | simpl in Hsy; lia].
Qed.

(** *** The text is longer than the value is large *)

Lemma length_escape_char (c : ascii) (t : string) :
  (String.length t <= String.length (escape_char c t))%nat.
Proof. each_ascii c; simpl; lia. Qed.

Lemma length_escape_chars (s k : string) :
  (String.length k <= String.length (escape_chars s k))%nat.
Proof.
  induction s as [|c s IH]; simpl; [lia|].
  etransitivity; [exact IH | apply length_escape_char].
Qed.

Lemma length_write_string (s k : string) :
  (2 + String.length k <= String.length (write_string s k))%nat.
Proof.
  unfold write_string.
  pose proof (length_escape_chars s (String dquote k)) as H.
  change (String.length (String dquote k)) with (S (String.length k)) in H.
  change (String.length (String dquote ?t)) with (S (String.length t)). lia.
Qed.

Lemma length_write_uint (u : Decimal.uint) (k : string) :
  u <> Decimal.Nil -> (S (String.length k) <= String.length (write_uint u k))%nat.
Proof.
  assert (H : forall u', (String.length k <= String.length (write_uint u' k))%nat).
  { induction u'; simpl; lia. }
  destruct u; intros Hn; try congruence; simpl; specialize (H u); lia.
Qed.

Lemma length_write_int (n : Z) (k : string) :
  (S (String.length k) <= String.length (write_int n k))%nat.
Proof.
  unfold write_int. destruct n as [|p|p]; simpl.
  - lia.
  - apply length_write_uint, to_uint_head.
  - pose proof (length_write_uint (Pos.to_uint p) k (proj1 (to_uint_head p))). lia.
Qed.

Lemma length_String (c : ascii) (t : string) :
  String.length (String c t) = S (String.length t).
Proof. reflexivity. Qed.

Lemma length_elements (xs : list json) (base : string) :
  Forall (fun y => forall k, (size y + String.length k <= String.length (write y k))%nat) xs ->
  (fold_right (fun y acc => size y + acc) O xs + String.length base
   <= String.length (fold_right (fun y acc => ", " +:+ write y acc) base xs))%nat.
Proof.
  induction 1 as [|y ys Hy _ IH]; [simpl; lia|].
  change (fold_right (fun y acc => ", " +:+ write y acc) base (y :: ys))
    with (String "," (String " "
            (write y (fold_right (fun y acc => ", " +:+ write y acc) base ys)))).
  change (fold_right (fun y acc => size y + acc) O (y :: ys))%nat
    with (size y + fold_right (fun y acc => size y + acc) O ys)%nat.
  rewrite !length_String.
  specialize (Hy (fold_right (fun y acc => ", " +:+ write y acc) base ys)). lia.
Qed.

Lemma length_members (kvs : list (string * json)) (base : string) :
  Forall (fun kv => forall k,
            (size (snd kv) + String.length k <= String.length (write (snd kv) k))%nat) kvs ->
  (fold_right (fun kv acc => size (snd kv) + acc) O kvs + String.length base
   <= String.length
        (fold_right (fun kv acc => ", " +:+ write_string (fst kv) (": " +:+ write (snd kv) acc))
           base kvs))%nat.
Proof.
  induction 1 as [|kv ys Hy _ IH]; [simpl; lia|].
  set (f := fun (kv : string * json) (acc : string) =>
              ", " +:+ write_string (fst kv) (": " +:+ write (snd kv) acc)) in *.
  change (fold_right f base (kv :: ys))
    with (String "," (String " "
            (write_string (fst kv) (String ":" (String " " (write (snd kv) (fold_right f base ys))))))).
  change (fold_right (fun kv acc => size (snd kv) + acc) O (kv :: ys))%nat
    with (size (snd kv) + fold_right (fun kv acc => size (snd kv) + acc) O ys)%nat.
  rewrite !length_String.
  match goal with |- context [write_string (fst kv) ?rest] =>
    pose proof (length_write_string (fst kv) rest) as Hkey end.
  rewrite !length_String in Hkey.
  specialize (Hy (fold_right f base ys)). lia.
Qed.

Lemma length_write (v : json) :
  forall k, (size v + String.length k <= String.length (write v k))%nat.
Proof.
  induction v as [| b | n | s | xs IH | kvs IH] using json_nested_ind; intros k.
  - simpl. lia.
  - destruct b; simpl; lia.
  - change (write (JInt n) k) with (write_int n k). change (size (JInt n)) with 1%nat.
    pose proof (length_write_int n k). lia.
  - change (write (JStr s) k) with (write_string s k).
    change (size (JStr s)) with 1%nat.
    pose proof (length_write_string s k). lia.
  - destruct xs as [|x xs]; [simpl; lia|].
    rewrite write_arr_cons. inversion IH as [|? ? Hx Hxs]; subst.
    change (size (JArr (x :: xs)))
      with (S (size x + fold_right (fun y acc => size y + acc) O xs))%nat.
    rewrite length_String.
    pose proof (length_elements xs (String "]" k) Hxs) as Hrest.
    rewrite length_String in Hrest.
    match goal with |- context [write x ?rest] => specialize (Hx rest) end. lia.
  - destruct kvs as [|[key x] kvs]; [simpl; lia|].
    rewrite write_obj_cons. inversion IH as [|? ? Hx Hxs]; subst.
    change (size (JObj ((key, x) :: kvs)))
      with (S (size x + fold_right (fun kv acc => size (snd kv) + acc) O kvs))%nat.
    pose proof (length_members kvs (String "}" k) Hxs) as Hrest.
    rewrite length_String in Hrest. simpl snd in Hx.
    remember (fold_right (fun kv acc => ", " +:+ write_string (fst kv) (": " +:+ write (snd kv) acc))
                (String "}" k) kvs) as R eqn:ER.
    clear ER. specialize (Hx R).
    pose proof (length_write_string key (String ":" (String " " (write x R)))) as Hkey.
    change (": " +:+ write x R) with (String ":" (String " " (write x R))).
    rewrite !length_String in *. lia.
Qed.

(** [json.loads(json.dumps(v)) == v] for every well-formed value. *)
Lemma loads_dumps (v : json) : wf_json v = true -> loads (dumps v) = Some v.
Proof.
  intros Hwf. unfold loads, dumps.
  rewrite skip_ws_write, (scan_once_write v Hwf); [reflexivity | reflexivity |].
  pose proof (length_write v EmptyString). simpl in H. lia.
Qed.

(** ** The script on sample worlds *)

Example fresh_run_result :
  fst (get_native_app_authorizer CLIENT_ID "search.api.globus.org" fresh_world)
  = Ok (RefreshTokenAuthorizer (JStr "RtSearch") (NativeAppAuthClient CLIENT_ID)
          (JStr "AgSearch") (JInt 1530000000) update_tokens_file_on_refresh).
Proof. reflexivity. Qed.

Example fresh_run_trace :
  trace (snd (get_native_app_authorizer CLIENT_ID "search.api.globus.org" fresh_world))
  = [EvOpen TOKEN_FILE "r";
     EvCall "do_native_app_authentication";
     EvStartFlow CLIENT_ID (Some SCOPES) REDIRECT_URI true;
     EvPrint ("Native App Authorization URL: " +:+ String "010"
                ("https://auth.globus.org/v2/oauth2/authorize?client_id=" +:+ CLIENT_ID));
     EvBrowser None ("https://auth.globus.org/v2/oauth2/authorize?client_id=" +:+ CLIENT_ID);
     EvInput "Enter the auth code: ";
     EvExchangeCode "code123";
     EvOpen TOKEN_FILE "w"].
Proof. vm_compute. reflexivity. Qed.

Example cached_run_trace :
  trace (snd (get_native_app_authorizer CLIENT_ID "search.api.globus.org" cached_world))
  = [EvOpen TOKEN_FILE "r"].
Proof. vm_compute. reflexivity. Qed.

(** ** How the functions of the script run *)

Lemma trace_log (e : event) (w : world) : trace (log e w) = trace w ++ [e].
Proof. reflexivity. Qed.

Lemma events_of_app {A : Type} (m : M A) (w : world) (evs : list event) :
  trace (snd (m w)) = trace w ++ evs -> events_of m w = evs.
Proof. intros H. unfold events_of. rewrite H. apply drop_app_length. Qed.

Lemma load_run (path : string) (w : world) :
  load_tokens_from_file path w =
  (match files w !! path with
   | None => Raise (FileNotFoundError path)
   | Some text =>
       match loads text with
       | Some v => Ok v
       | None => Raise JSONDecodeError
       end
   end, log (EvOpen path "r") w).
Proof.
  unfold load_tokens_from_file, bind, read_file.
  destruct (files w !! path) as [text|]; [|reflexivity].
  destruct (loads text); reflexivity.
Qed.

Lemma save_run (path : string) (tokens : json) (w : world) :
  save_tokens_to_file path tokens w =
  if unwritable w path
  then (Raise (PermissionError path), log (EvOpen path "w") w)
  else (Ok tt, set_files (<[path := dumps tokens]> (files w)) (log (EvOpen path "w") w)).
Proof. reflexivity. Qed.

(** The cache is consulted first; the result of the [try] is [cached_tokens]. *)
Lemma try_load_run (w : world) :
  try_except (load_tokens_from_file TOKEN_FILE) (ret JNull) w
  = (Ok (cached_tokens w), log (EvOpen TOKEN_FILE "r") w).
Proof.
  unfold try_except, cached_tokens. rewrite load_run.
  destruct (files w !! TOKEN_FILE) as [text|]; [|reflexivity].
  destruct (loads text); reflexivity.
Qed.

(** The save inside the factory never raises. *)
Lemma try_save_run (tokens : json) (w : world) :
  try_except (save_tokens_to_file TOKEN_FILE tokens) (ret tt) w =
  (Ok tt,
   if unwritable w TOKEN_FILE then log (EvOpen TOKEN_FILE "w") w
   else set_files (<[TOKEN_FILE := dumps tokens]> (files w)) (log (EvOpen TOKEN_FILE "w") w)).
Proof.
  unfold try_except. rewrite save_run.
  destruct (unwritable w TOKEN_FILE); reflexivity.
Qed.

Lemma lift_authorizer_from (client_id service : string) (tokens : json) (w : world) :
  (tokens' <- lift (getitem tokens service) ;;
   refresh_token <- lift (getitem tokens' "refresh_token") ;;
   access_token <- lift (getitem tokens' "access_token") ;;
   expires_at <- lift (getitem tokens' "expires_at_seconds") ;;
   ret (RefreshTokenAuthorizer refresh_token (NativeAppAuthClient client_id)
          access_token expires_at update_tokens_file_on_refresh)) w
  = (authorizer_from client_id tokens service, w).
Proof.
  unfold bind, lift, ret, authorizer_from.
  destruct (getitem tokens service) as [record|]; [|reflexivity].
  destruct (getitem record "refresh_token"); [|reflexivity].
  destruct (getitem record "access_token"); [|reflexivity].
  destruct (getitem record "expires_at_seconds"); reflexivity.
Qed.

Lemma bind_run {A B : Type} (m : M A) (f : A -> M B) (w : world) :
  bind m f w =
  match m w with
  | (Ok a, w') => f a w'
  | (Raise e, w') => (Raise e, w')
  end.
Proof. reflexivity. Qed.

(** A cache hit: the factory goes straight to building the authorizer. *)
Lemma factory_hit (client_id service : string) (w : world) :
  truthy (cached_tokens w) = true ->
  get_native_app_authorizer client_id service w
  = (authorizer_from client_id (cached_tokens w) service, log (EvOpen TOKEN_FILE "r") w).
Proof.
  intros Ht. unfold get_native_app_authorizer.
  rewrite bind_run, try_load_run, bind_run, Ht.
  change (negb true) with false. cbv iota. unfold ret at 1.
  apply lift_authorizer_from.
Qed.

(** A cache miss: authenticate, try to save, then build the authorizer. *)
Lemma factory_miss (client_id service : string) (w : world) :
  truthy (cached_tokens w) = false ->
  get_native_app_authorizer client_id service w =
  match do_native_app_authentication client_id REDIRECT_URI (Some SCOPES)
          (log (EvOpen TOKEN_FILE "r") w) with
  | (Raise e, w2) => (Raise e, w2)
  | (Ok tokens, w2) =>
      (authorizer_from client_id tokens service,
       if unwritable w2 TOKEN_FILE then log (EvOpen TOKEN_FILE "w") w2
       else set_files (<[TOKEN_FILE := dumps tokens]> (files w2))
              (log (EvOpen TOKEN_FILE "w") w2))
  end.
Proof.
  intros Ht. unfold get_native_app_authorizer.
  rewrite bind_run, try_load_run, bind_run, Ht.
  change (negb false) with true. cbv iota.
  rewrite bind_run.
  destruct (do_native_app_authentication client_id REDIRECT_URI (Some SCOPES)
              (log (EvOpen TOKEN_FILE "r") w)) as [[tokens|e] w2]; [|reflexivity].
  rewrite bind_run, try_save_run. unfold ret at 1.
  apply lift_authorizer_from.
Qed.

(** Logging an event and consuming input leave the rest of the world alone. *)
Lemma files_log e w : files (log e w) = files w.
Proof. reflexivity. Qed.
Lemma unwritable_log e w : unwritable (log e w) = unwritable w.
Proof. reflexivity. Qed.
Lemma environ_log e w : environ (log e w) = environ w.
Proof. reflexivity. Qed.
Lemma platform_log e w : platform (log e w) = platform w.
Proof. reflexivity. Qed.
Lemma stdin_log e w : stdin (log e w) = stdin w.
Proof. reflexivity. Qed.
Lemma globus_log e w : globus (log e w) = globus w.
Proof. reflexivity. Qed.
Lemma files_set_stdin l w : files (set_stdin l w) = files w.
Proof. reflexivity. Qed.
Lemma globus_set_stdin l w : globus (set_stdin l w) = globus w.
Proof. reflexivity. Qed.
Lemma environ_set_stdin l w : environ (set_stdin l w) = environ w.
Proof. reflexivity. Qed.
Lemma globus_set_files f w : globus (set_files f w) = globus w.
Proof. reflexivity. Qed.
Lemma unwritable_set_files f w : unwritable (set_files f w) = unwritable w.
Proof. reflexivity. Qed.
Lemma unwritable_set_stdin l w : unwritable (set_stdin l w) = unwritable w.
Proof. reflexivity. Qed.
Lemma trace_set_stdin l w : trace (set_stdin l w) = trace w.
Proof. reflexivity. Qed.
Lemma trace_set_files f w : trace (set_files f w) = trace w.
Proof. reflexivity. Qed.
Lemma files_set_files f w : files (set_files f w) = f.
Proof. reflexivity. Qed.
Lemma remote_value_log e w : remote_value (log e w) = remote_value w.
Proof. reflexivity. Qed.
Lemma cached_tokens_log e w : cached_tokens (log e w) = cached_tokens w.
Proof. reflexivity. Qed.

Create Rewrite HintDb world.
#[local] Hint Rewrite globus_set_stdin environ_set_stdin globus_set_files
  unwritable_set_files : world.
#[local] Hint Rewrite files_log unwritable_log environ_log platform_log stdin_log
  globus_log files_set_stdin unwritable_set_stdin trace_set_stdin trace_set_files
  files_set_files remote_value_log cached_tokens_log trace_log : world.

Lemma is_remote_session_run (w : world) :
  is_remote_session w = (Ok (remote_value w), w).
Proof. reflexivity. Qed.

(** The native authenticator, step by step. *)
Lemma native_auth_run (client_id redirect_uri : string) (scopes : option string) (w : world) :
  do_native_app_authentication client_id redirect_uri scopes w =
  let url := oauth2_get_authorize_url (globus w) client_id redirect_uri scopes in
  let w1 := log (EvPrint ("Native App Authorization URL: " +:+ String "010" url))
              (log (EvStartFlow client_id scopes redirect_uri true)
                 (log (EvCall "do_native_app_authentication") w)) in
  let w2 := if truthy (remote_value w) then w1
            else log (EvBrowser (if String.eqb (platform w) "darwin"
                                 then Some "safari" else None) url) w1 in
  let w3 := log (EvInput "Enter the auth code: ") w2 in
  match stdin w with
  | [] => (Raise EOFError, w3)
  | line :: rest =>
      (match oauth2_exchange_code_for_tokens (globus w) (strip line) with
       | Reply response => Ok (by_resource_server response)
       | Failure message => Raise (GlobusError message)
       end,
       log (EvExchangeCode (strip line)) (set_stdin rest w3))
  end.
Proof.
  unfold do_native_app_authentication, bind, emit, py_print, emit, get_input, ret.
  rewrite is_remote_session_run. cbv zeta.
  autorewrite with world.
  destruct (truthy (remote_value w)); unfold negb; cbv beta iota;
    [| autorewrite with world; destruct (String.eqb (platform w) "darwin")];
    autorewrite with world;
    (destruct (stdin w) as [|line rest]; [reflexivity|]);
    autorewrite with world;
    destruct (oauth2_exchange_code_for_tokens (globus w) (strip line)); reflexivity.
Qed.

(** What the native authenticator leaves behind: one entry, no file access,
    no search, and a browser launch exactly when [is_remote_session] returned
    a false value. *)
Lemma native_auth_effects (client_id redirect_uri : string) (scopes : option string)
    (w : world) :
  let w' := snd (do_native_app_authentication client_id redirect_uri scopes w) in
  fst (do_native_app_authentication client_id redirect_uri scopes w) = exchanged w
  /\ files w' = files w
  /\ unwritable w' = unwritable w
  /\ exists evs,
       trace w' = trace w ++ EvCall "do_native_app_authentication" :: evs
       /\ calls "do_native_app_authentication" evs = 0%nat
       /\ calls "do_client_credentials_app_authentication" evs = 0%nat
       /\ file_events evs = []
       /\ searches evs = []
       /\ browser_launches evs =
          if truthy (remote_value w) then []
          else [EvBrowser (if String.eqb (platform w) "darwin" then Some "safari" else None)
                  (oauth2_get_authorize_url (globus w) client_id redirect_uri scopes)].
Proof.
  rewrite native_auth_run. cbv zeta. unfold exchanged.
  destruct (truthy (remote_value w)); destruct (stdin w) as [|line rest];
    try destruct (oauth2_exchange_code_for_tokens (globus w) (strip line));
    cbn [fst snd]; autorewrite with world;
    (split; [reflexivity|]); (split; [reflexivity|]); (split; [reflexivity|]);
    eexists; (split; [repeat rewrite <- app_assoc; reflexivity|]);
    repeat split.
Qed.

Lemma exchanged_log (e : event) (w : world) : exchanged (log e w) = exchanged w.
Proof. reflexivity. Qed.

(** Everything a cache miss does. *)
Lemma factory_miss_effects (client_id service : string) (w : world) :
  truthy (cached_tokens w) = false ->
  let run := get_native_app_authorizer client_id service w in
  fst run = match exchanged w with
            | Ok tokens => authorizer_from client_id tokens service
            | Raise e => Raise e
            end
  /\ files (snd run) = match exchanged w with
                       | Ok tokens =>
                           if unwritable w TOKEN_FILE then files w
                           else <[TOKEN_FILE := dumps tokens]> (files w)
                       | Raise _ => files w
                       end
  /\ exists evs,
       events_of (get_native_app_authorizer client_id service) w
       = EvOpen TOKEN_FILE "r" :: EvCall "do_native_app_authentication" :: evs
         ++ match exchanged w with
            | Ok _ => [EvOpen TOKEN_FILE "w"]
            | Raise _ => []
            end
       /\ calls "do_native_app_authentication" evs = 0%nat
       /\ calls "do_client_credentials_app_authentication" evs = 0%nat
       /\ file_events evs = []
       /\ searches evs = []
       /\ browser_launches evs =
          if truthy (remote_value w) then []
          else [EvBrowser (if String.eqb (platform w) "darwin" then Some "safari" else None)
                  (oauth2_get_authorize_url (globus w) client_id REDIRECT_URI (Some SCOPES))].
Proof.
  intros Hmiss run. subst run. rewrite (factory_miss _ _ _ Hmiss).
  pose proof (native_auth_effects client_id REDIRECT_URI (Some SCOPES)
                (log (EvOpen TOKEN_FILE "r") w)) as H.
  cbv zeta in H. rewrite exchanged_log in H.
  destruct H as (Hres & Hfiles & Hunw & evs & Htrace & Hrest).
  autorewrite with world in Hfiles, Hunw, Htrace, Hrest.
  assert (Hev : forall (m : M authorizer) tl,
            trace (snd (m w)) = ((trace w ++ [EvOpen TOKEN_FILE "r"])
                                   ++ EvCall "do_native_app_authentication" :: evs) ++ tl ->
            events_of m w
            = EvOpen TOKEN_FILE "r" :: EvCall "do_native_app_authentication" :: evs ++ tl).
  { intros m tl E. apply events_of_app. rewrite E.
    repeat rewrite <- app_assoc. reflexivity. }
  destruct (do_native_app_authentication client_id REDIRECT_URI (Some SCOPES)
              (log (EvOpen TOKEN_FILE "r") w)) as [[tokens|e] w2] eqn:Hrun;
    cbn [fst snd] in *; rewrite <- Hres; cbn [fst snd].
  - split; [reflexivity|]. split.
    + rewrite Hunw. destruct (unwritable w TOKEN_FILE); autorewrite with world;
        rewrite ?Hfiles; reflexivity.
    + exists evs. split; [|exact Hrest].
      apply Hev. rewrite (factory_miss _ _ _ Hmiss), Hrun.
      destruct (unwritable w2 TOKEN_FILE); cbn [snd]; autorewrite with world;
        rewrite Htrace; reflexivity.
  - split; [reflexivity|]. split; [exact Hfiles|].
    exists evs. split; [|exact Hrest].
    apply Hev. rewrite (factory_miss _ _ _ Hmiss), Hrun. cbn [snd].
    rewrite Htrace, app_nil_r. reflexivity.
Qed.

(** Everything a cache hit does: one read of the cache file. *)
Lemma factory_hit_effects (client_id service : string) (w : world) :
  truthy (cached_tokens w) = true ->
  let run := get_native_app_authorizer client_id service w in
  fst run = authorizer_from client_id (cached_tokens w) service
  /\ files (snd run) = files w
  /\ events_of (get_native_app_authorizer client_id service) w = [EvOpen TOKEN_FILE "r"].
Proof.
  intros Hhit run. subst run.
  split; [|split]; try (rewrite (factory_hit _ _ _ Hhit); reflexivity).
  apply events_of_app. rewrite (factory_hit _ _ _ Hhit). reflexivity.
Qed.

Lemma getitem_not_from_cache_file (v : json) (k : string) :
  raises_from_cache_file (getitem v k) = false.
Proof.
  destruct v as [| | | | |d]; try reflexivity.
  simpl. destruct (dict_get k d); reflexivity.
Qed.

Lemma authorizer_from_not_from_cache_file (client_id service : string) (tokens : json) :
  raises_from_cache_file (authorizer_from client_id tokens service) = false.
Proof.
  unfold authorizer_from.
  pose proof (getitem_not_from_cache_file tokens service) as H0.
  destruct (getitem tokens service) as [record|]; [|exact H0].
  pose proof (getitem_not_from_cache_file record "refresh_token") as H1.
  destruct (getitem record "refresh_token"); [|exact H1].
  pose proof (getitem_not_from_cache_file record "access_token") as H2.
  destruct (getitem record "access_token"); [|exact H2].
  pose proof (getitem_not_from_cache_file record "expires_at_seconds") as H3.
  destruct (getitem record "expires_at_seconds"); [reflexivity|exact H3].
Qed.

Lemma exchanged_not_from_cache_file (w : world) :
  raises_from_cache_file (exchanged w) = false.
Proof.
  unfold exchanged. destruct (stdin w) as [|line rest]; [reflexivity|].
  destruct (oauth2_exchange_code_for_tokens (globus w) (strip line)); reflexivity.
Qed.

Lemma calls_app (f : string) (t1 t2 : list event) :
  calls f (t1 ++ t2) = (calls f t1 + calls f t2)%nat.
Proof. unfold calls. rewrite List.filter_app. apply length_app. Qed.

Lemma calls_cons_app (f : string) (e1 e2 : event) (evs tl : list event) :
  calls f (e1 :: e2 :: evs ++ tl)
  = (calls f [e1] + calls f [e2] + calls f evs + calls f tl)%nat.
Proof.
  change (e1 :: e2 :: evs ++ tl) with ([e1] ++ [e2] ++ evs ++ tl).
  rewrite !calls_app. lia.
Qed.

(** ** The claims *)

(** C4. Cache miss triggers authentication: when the token cache file does
    not exist or does not decode, [get_native_app_authorizer] invokes the
    native authenticator exactly once, and whatever it raises is not an
    error of reading or decoding the cache file. *)
Theorem cache_unavailable_authenticates_once (client_id service : string) (w : world) :
  (files w !! TOKEN_FILE = None
   \/ exists text, files w !! TOKEN_FILE = Some text /\ loads text = None) ->
  calls "do_native_app_authentication"
    (events_of (get_native_app_authorizer client_id service) w) = 1%nat
  /\ raises_from_cache_file (fst (get_native_app_authorizer client_id service w)) = false.
Proof.
  intros Hfile.
  assert (Hmiss : truthy (cached_tokens w) = false).
  { unfold cached_tokens. destruct Hfile as [-> | (text & -> & ->)]; reflexivity. }
  destruct (factory_miss_effects client_id service w Hmiss)
    as (Hres & _ & evs & Hev & Hnative & _).
  split.
  - rewrite Hev, calls_cons_app, Hnative.
    destruct (exchanged w); reflexivity.
  - rewrite Hres. pose proof (exchanged_not_from_cache_file w) as He.
    destruct (exchanged w); [apply authorizer_from_not_from_cache_file | exact He].
Qed.

Lemma cache_unavailable_authenticates_once_witness :
  (files fresh_world !! TOKEN_FILE = None
   \/ exists text, files fresh_world !! TOKEN_FILE = Some text /\ loads text = None)
  /\ calls "do_native_app_authentication"
       (events_of (get_native_app_authorizer CLIENT_ID "search.api.globus.org") fresh_world)
     = 1%nat
  /\ raises_from_cache_file
       (fst (get_native_app_authorizer CLIENT_ID "search.api.globus.org" fresh_world)) = false.
Proof.
  assert (H : files fresh_world !! TOKEN_FILE = None
              \/ exists text, files fresh_world !! TOKEN_FILE = Some text /\ loads text = None)
    by (left; reflexivity).
  split; [exact H|].
  exact (cache_unavailable_authenticates_once CLIENT_ID "search.api.globus.org" fresh_world H).
Defined.

Lemma opens_of_file_events (path : string) (evs : list event) :
  file_events evs = [] -> opens path evs = [].
Proof.
  induction evs as [|e evs IH]; [reflexivity|].
  unfold file_events, opens in *. simpl.
  destruct e; simpl; try discriminate; try exact IH.
Qed.

Lemma opens_app (path : string) (t1 t2 : list event) :
  opens path (t1 ++ t2) = opens path t1 ++ opens path t2.
Proof. apply List.filter_app. Qed.

(** C9. A cache that decodes to a non-empty mapping without a record for
    the requested service makes [get_native_app_authorizer] raise
    [KeyError]; the native authenticator is not invoked. *)
Theorem cached_mapping_without_service (client_id service text : string)
    (d : list (string * json)) (w : world) :
  files w !! TOKEN_FILE = Some text ->
  loads text = Some (JObj d) ->
  d <> [] ->
  dict_get service d = None ->
  fst (get_native_app_authorizer client_id service w) = Raise (KeyError service)
  /\ calls "do_native_app_authentication"
       (events_of (get_native_app_authorizer client_id service) w) = 0%nat.
Proof.
  intros Hfile Hloads Hne Hget.
  assert (Hc : cached_tokens w = JObj d).
  { unfold cached_tokens. rewrite Hfile, Hloads. reflexivity. }
  assert (Hhit : truthy (cached_tokens w) = true).
  { rewrite Hc. destruct d; [congruence | reflexivity]. }
  destruct (factory_hit_effects client_id service w Hhit) as (Hres & _ & Hev).
  split.
  - rewrite Hres, Hc. unfold authorizer_from. simpl. rewrite Hget. reflexivity.
  - rewrite Hev. reflexivity.
Qed.

Lemma cached_mapping_without_service_witness :
  fst (get_native_app_authorizer CLIENT_ID "transfer.api.globus.org" cached_world)
  = Raise (KeyError "transfer.api.globus.org")
  /\ calls "do_native_app_authentication"
       (events_of (get_native_app_authorizer CLIENT_ID "transfer.api.globus.org") cached_world)
     = 0%nat.
Proof.
  apply (cached_mapping_without_service CLIENT_ID "transfer.api.globus.org"
           (dumps sample_tokens)
           [("auth.globus.org", auth_record); ("search.api.globus.org", search_record)]
           cached_world).
  - reflexivity.
  - vm_compute. reflexivity.
  - discriminate.
  - reflexivity.
Defined.

(** C10. A cache that decodes to a false value (an empty mapping, [null],
    ...) is treated as a miss: the native authenticator is invoked once, and
    once it has returned tokens the factory opens the cache file for writing
    and, when the write succeeds, the file holds the fresh tokens. *)
Theorem falsy_cache_reauthenticates (client_id service text : string) (v : json)
    (w : world) :
  files w !! TOKEN_FILE = Some text ->
  loads text = Some v ->
  truthy v = false ->
  let run := get_native_app_authorizer client_id service w in
  let evs := events_of (get_native_app_authorizer client_id service) w in
  calls "do_native_app_authentication" evs = 1%nat
  /\ forall tokens, exchanged w = Ok tokens ->
       opens TOKEN_FILE evs = [EvOpen TOKEN_FILE "r"; EvOpen TOKEN_FILE "w"]
       /\ (unwritable w TOKEN_FILE = false ->
           files (snd run) !! TOKEN_FILE = Some (dumps tokens)).
Proof.
  intros Hfile Hloads Hfalsy run evs. subst run evs.
  assert (Hmiss : truthy (cached_tokens w) = false).
  { unfold cached_tokens. rewrite Hfile, Hloads. exact Hfalsy. }
  destruct (factory_miss_effects client_id service w Hmiss)
    as (_ & Hfiles & evs & Hev & Hnative & _ & Hnofile & _).
  split.
  - rewrite Hev, calls_cons_app, Hnative. destruct (exchanged w); reflexivity.
  - intros tokens Hex. rewrite Hex in Hev, Hfiles. split.
    + rewrite Hev.
      change (EvOpen TOKEN_FILE "r" :: EvCall "do_native_app_authentication"
                :: evs ++ [EvOpen TOKEN_FILE "w"])
        with ([EvOpen TOKEN_FILE "r"; EvCall "do_native_app_authentication"]
                ++ evs ++ [EvOpen TOKEN_FILE "w"]).
      rewrite !opens_app, (opens_of_file_events _ _ Hnofile). reflexivity.
    + intros Hw. rewrite Hfiles, Hw. apply lookup_insert_eq.
Qed.

Lemma falsy_cache_reauthenticates_witness :
  calls "do_native_app_authentication"
    (events_of (get_native_app_authorizer CLIENT_ID "search.api.globus.org")
       empty_cache_world) = 1%nat
  /\ opens TOKEN_FILE
       (events_of (get_native_app_authorizer CLIENT_ID "search.api.globus.org")
          empty_cache_world)
     = [EvOpen TOKEN_FILE "r"; EvOpen TOKEN_FILE "w"]
  /\ files (snd (get_native_app_authorizer CLIENT_ID "search.api.globus.org"
                   empty_cache_world)) !! TOKEN_FILE
     = Some (dumps sample_tokens).
Proof.
  destruct (falsy_cache_reauthenticates CLIENT_ID "search.api.globus.org" "{}" (JObj [])
              empty_cache_world eq_refl eq_refl eq_refl) as [H1 H2].
  destruct (H2 sample_tokens eq_refl) as [H3 H4].
  exact (conj H1 (conj H3 (H4 eq_refl))).
Defined.

(** C5. Write-failure tolerance: when the cache is missed, the native
    authenticator returns tokens holding a complete record for the service,
    and the cache file cannot be written, [get_native_app_authorizer] still
    returns the refreshing authorizer built from those tokens; the failed
    save was attempted and raised nothing, and no file changed. *)
Theorem unsaved_tokens_still_authorize (client_id service : string)
    (tokens record refresh_token access_token expires_at : json) (w : world) :
  truthy (cached_tokens w) = false ->
  exchanged w = Ok tokens ->
  unwritable w TOKEN_FILE = true ->
  getitem tokens service = Ok record ->
  getitem record "refresh_token" = Ok refresh_token ->
  getitem record "access_token" = Ok access_token ->
  getitem record "expires_at_seconds" = Ok expires_at ->
  let run := get_native_app_authorizer client_id service w in
  fst run = Ok (RefreshTokenAuthorizer refresh_token (NativeAppAuthClient client_id)
                  access_token expires_at update_tokens_file_on_refresh)
  /\ files (snd run) = files w
  /\ opens TOKEN_FILE (events_of (get_native_app_authorizer client_id service) w)
     = [EvOpen TOKEN_FILE "r"; EvOpen TOKEN_FILE "w"].
Proof.
  intros Hmiss Hex Hunw Hrec Hrt Hat Hexp run. subst run.
  destruct (factory_miss_effects client_id service w Hmiss)
    as (Hres & Hfiles & evs & Hev & _ & _ & Hnofile & _).
  rewrite Hex in Hres, Hfiles, Hev. rewrite Hunw in Hfiles.
  split; [|split].
  - rewrite Hres. unfold authorizer_from. rewrite Hrec, Hrt, Hat, Hexp. reflexivity.
  - exact Hfiles.
  - rewrite Hev.
    change (EvOpen TOKEN_FILE "r" :: EvCall "do_native_app_authentication"
              :: evs ++ [EvOpen TOKEN_FILE "w"])
      with ([EvOpen TOKEN_FILE "r"; EvCall "do_native_app_authentication"]
              ++ evs ++ [EvOpen TOKEN_FILE "w"]).
    rewrite !opens_app, (opens_of_file_events _ _ Hnofile). reflexivity.
Qed.

Lemma unsaved_tokens_still_authorize_witness :
  fst (get_native_app_authorizer CLIENT_ID "search.api.globus.org" readonly_world)
  = Ok (RefreshTokenAuthorizer (JStr "RtSearch") (NativeAppAuthClient CLIENT_ID)
          (JStr "AgSearch") (JInt 1530000000) update_tokens_file_on_refresh)
  /\ files (snd (get_native_app_authorizer CLIENT_ID "search.api.globus.org" readonly_world))
     = files readonly_world
  /\ opens TOKEN_FILE
       (events_of (get_native_app_authorizer CLIENT_ID "search.api.globus.org")
          readonly_world)
     = [EvOpen TOKEN_FILE "r"; EvOpen TOKEN_FILE "w"].
Proof.
  exact (unsaved_tokens_still_authorize CLIENT_ID "search.api.globus.org"
           sample_tokens search_record (JStr "RtSearch") (JStr "AgSearch") (JInt 1530000000)
           readonly_world eq_refl eq_refl eq_refl eq_refl eq_refl eq_refl eq_refl).
Defined.

(** C6. Round trip: saving a well-formed token mapping (any well-formed
    value) to a writable cache file and loading the file again returns the
    same mapping. *)
Theorem save_then_load_roundtrip (filepath : string) (tokens : json) (w : world) :
  wf_json tokens = true ->
  unwritable w filepath = false ->
  fst (save_tokens_to_file filepath tokens w) = Ok tt
  /\ fst (load_tokens_from_file filepath (snd (save_tokens_to_file filepath tokens w)))
     = Ok tokens
  /\ fst ((save_tokens_to_file filepath tokens ;;; load_tokens_from_file filepath) w)
     = Ok tokens.
Proof.
  intros Hwf Hw.
  assert (Hload : fst (load_tokens_from_file filepath
                         (snd (save_tokens_to_file filepath tokens w))) = Ok tokens).
  { rewrite save_run, Hw, load_run. cbn [fst snd]. autorewrite with world.
    rewrite lookup_insert_eq, (loads_dumps tokens Hwf). reflexivity. }
  split; [|split].
  - rewrite save_run, Hw. reflexivity.
  - exact Hload.
  - rewrite bind_run. revert Hload. rewrite save_run, Hw. cbn [fst snd].
    intros Hload. exact Hload.
Qed.

Lemma save_then_load_roundtrip_witness :
  fst (save_tokens_to_file TOKEN_FILE sample_tokens fresh_world) = Ok tt
  /\ fst (load_tokens_from_file TOKEN_FILE
            (snd (save_tokens_to_file TOKEN_FILE sample_tokens fresh_world)))
     = Ok sample_tokens
  /\ fst ((save_tokens_to_file TOKEN_FILE sample_tokens ;;; load_tokens_from_file TOKEN_FILE)
            fresh_world)
     = Ok sample_tokens.
Proof.
  exact (save_then_load_roundtrip TOKEN_FILE sample_tokens fresh_world eq_refl eq_refl).
Defined.

Lemma confidential_auth_run (client_id client_secret : string) (w : world) :
  do_client_credentials_app_authentication client_id client_secret w =
  (match oauth2_client_credentials_tokens (globus w) client_id client_secret with
   | Reply response => Ok (by_resource_server response)
   | Failure message => Raise (GlobusError message)
   end,
   log (EvClientCredentials client_id client_secret)
     (log (EvCall "do_client_credentials_app_authentication") w)).
Proof.
  unfold do_client_credentials_app_authentication, bind, emit, ret.
  autorewrite with world.
  destruct (oauth2_client_credentials_tokens (globus w) client_id client_secret);
    reflexivity.
Qed.

(** C8. Confidential path: every call of [get_confidential_app_authorizer]
    invokes the confidential authenticator once, whatever the cache holds;
    it opens no file and leaves the files as they are; its result is the
    access token of the record of [transfer.api.globus.org] (the service
    named in the function) in the returned mapping, wrapped in an
    [AccessTokenAuthorizer], which has no refresh callback. *)
Theorem confidential_path (client_id client_secret : string) (w : world) :
  let run := get_confidential_app_authorizer client_id client_secret w in
  let evs := events_of (get_confidential_app_authorizer client_id client_secret) w in
  evs = [EvCall "do_client_credentials_app_authentication";
         EvClientCredentials client_id client_secret]
  /\ calls "do_client_credentials_app_authentication" evs = 1%nat
  /\ file_events evs = []
  /\ files (snd run) = files w
  /\ fst run =
     match oauth2_client_credentials_tokens (globus w) client_id client_secret with
     | Failure message => Raise (GlobusError message)
     | Reply response =>
         match getitem (by_resource_server response) "transfer.api.globus.org" with
         | Raise e => Raise e
         | Ok transfer_tokens =>
             match getitem transfer_tokens "access_token" with
             | Raise e => Raise e
             | Ok transfer_access_token => Ok (AccessTokenAuthorizer transfer_access_token)
             end
         end
     end
  /\ match fst run with
     | Ok a => on_refresh_of a = None
     | Raise _ => True
     end.
Proof.
  cbv zeta.
  assert (Hrun : get_confidential_app_authorizer client_id client_secret w =
                 (match oauth2_client_credentials_tokens (globus w) client_id client_secret with
                  | Failure message => Raise (GlobusError message)
                  | Reply response =>
                      match getitem (by_resource_server response) "transfer.api.globus.org" with
                      | Raise e => Raise e
                      | Ok transfer_tokens =>
                          match getitem transfer_tokens "access_token" with
                          | Raise e => Raise e
                          | Ok transfer_access_token =>
                              Ok (AccessTokenAuthorizer transfer_access_token)
                          end
                      end
                  end,
                  log (EvClientCredentials client_id client_secret)
                    (log (EvCall "do_client_credentials_app_authentication") w))).
  { unfold get_confidential_app_authorizer. rewrite bind_run, confidential_auth_run.
    destruct (oauth2_client_credentials_tokens (globus w) client_id client_secret)
      as [response|]; [|reflexivity].
    unfold bind, lift, ret.
    destruct (getitem (by_resource_server response) "transfer.api.globus.org")
      as [transfer_tokens|]; [|reflexivity].
    destruct (getitem transfer_tokens "access_token"); reflexivity. }
  assert (Hev : events_of (get_confidential_app_authorizer client_id client_secret) w
                = [EvCall "do_client_credentials_app_authentication";
                   EvClientCredentials client_id client_secret]).
  { apply events_of_app. rewrite Hrun. cbn [snd]. autorewrite with world.
    rewrite <- app_assoc. reflexivity. }
  rewrite Hev, Hrun. cbn [fst snd].
  repeat split.
  destruct (oauth2_client_credentials_tokens (globus w) client_id client_secret)
    as [response|]; [|exact I].
  destruct (getitem (by_resource_server response) "transfer.api.globus.org")
    as [transfer_tokens|]; [|exact I].
  destruct (getitem transfer_tokens "access_token"); [reflexivity|exact I].
Qed.

Example confidential_sample_run :
  fst (get_confidential_app_authorizer CLIENT_ID "secret" cached_world)
  = Ok (AccessTokenAuthorizer (JStr "AgTransfer")).
Proof. reflexivity. Qed.

Lemma events_of_trace {A : Type} (m : M A) (w : world) (evs : list event) :
  trace (snd (m w)) = trace w ++ evs ->
  trace (snd (m w)) = trace w ++ events_of m w.
Proof. intros H. rewrite (events_of_app m w evs H). exact H. Qed.

Lemma native_auth_globus (client_id redirect_uri : string) (scopes : option string)
    (w : world) :
  globus (snd (do_native_app_authentication client_id redirect_uri scopes w)) = globus w.
Proof.
  rewrite native_auth_run. cbv zeta.
  destruct (truthy (remote_value w)); destruct (stdin w); reflexivity.
Qed.

(** The factory extends the trace, never searches, never takes the
    confidential path, and leaves the SDK as it is. *)
Lemma factory_frame (client_id service : string) (w : world) :
  let run := get_native_app_authorizer client_id service w in
  let evs := events_of (get_native_app_authorizer client_id service) w in
  trace (snd run) = trace w ++ evs
  /\ globus (snd run) = globus w
  /\ searches evs = []
  /\ calls "do_client_credentials_app_authentication" evs = 0%nat.
Proof.
  cbv zeta. destruct (truthy (cached_tokens w)) eqn:Hc.
  - destruct (factory_hit_effects client_id service w Hc) as (_ & _ & Hev).
    rewrite Hev, (factory_hit _ _ _ Hc). repeat split.
  - destruct (factory_miss_effects client_id service w Hc)
      as (_ & _ & evs & Hev & _ & Hconf & _ & Hsearch & _).
    split; [|split; [|split]].
    + destruct (native_auth_effects client_id REDIRECT_URI (Some SCOPES)
                  (log (EvOpen TOKEN_FILE "r") w)) as (_ & _ & _ & evs' & Htr & _).
      assert (Hex : exists evs0,
                 trace (snd (get_native_app_authorizer client_id service w))
                 = trace w ++ evs0).
      { rewrite (factory_miss _ _ _ Hc).
        destruct (do_native_app_authentication client_id REDIRECT_URI (Some SCOPES)
                    (log (EvOpen TOKEN_FILE "r") w)) as [[tokens|e] w2];
          cbn [snd] in *; [destruct (unwritable w2 TOKEN_FILE)|];
          eexists; autorewrite with world; rewrite Htr; autorewrite with world;
          repeat rewrite <- app_assoc; reflexivity. }
      destruct Hex as [evs0 Hex]. exact (events_of_trace _ _ _ Hex).
    + rewrite (factory_miss _ _ _ Hc).
      pose proof (native_auth_globus client_id REDIRECT_URI (Some SCOPES)
                    (log (EvOpen TOKEN_FILE "r") w)) as Hg.
      destruct (do_native_app_authentication client_id REDIRECT_URI (Some SCOPES)
                  (log (EvOpen TOKEN_FILE "r") w)) as [[tokens|e] w2];
        cbn [snd] in *; [destruct (unwritable w2 TOKEN_FILE)|];
        autorewrite with world; exact Hg.
    + rewrite Hev. unfold searches in *.
      change (EvOpen TOKEN_FILE "r" :: EvCall "do_native_app_authentication" :: ?l)
        with ([EvOpen TOKEN_FILE "r"; EvCall "do_native_app_authentication"] ++ l).
      rewrite !List.filter_app, Hsearch. destruct (exchanged w); reflexivity.
    + rewrite Hev, calls_cons_app, Hconf. destruct (exchanged w); reflexivity.
Qed.

(** An authorizer the factory returns is a refreshing one whose callback is
    [update_tokens_file_on_refresh]. *)
Lemma authorizer_from_callback (client_id service : string) (tokens : json) (a : authorizer) :
  authorizer_from client_id tokens service = Ok a ->
  on_refresh_of a = Some update_tokens_file_on_refresh.
Proof.
  unfold authorizer_from.
  destruct (getitem tokens service) as [record|]; [|discriminate].
  destruct (getitem record "refresh_token"); [|discriminate].
  destruct (getitem record "access_token"); [|discriminate].
  destruct (getitem record "expires_at_seconds"); [|discriminate].
  intros [= <-]. reflexivity.
Qed.

Lemma factory_callback (client_id service : string) (w : world) (a : authorizer) :
  fst (get_native_app_authorizer client_id service w) = Ok a ->
  on_refresh_of a = Some update_tokens_file_on_refresh.
Proof.
  destruct (truthy (cached_tokens w)) eqn:Hc.
  - destruct (factory_hit_effects client_id service w Hc) as (-> & _).
    apply authorizer_from_callback.
  - destruct (factory_miss_effects client_id service w Hc) as (-> & _).
    destruct (exchanged w); [apply authorizer_from_callback | discriminate].
Qed.

Lemma main_run (w : world) :
  main w =
  match get_native_app_authorizer CLIENT_ID "search.api.globus.org" w with
  | (Raise e, w1) => (Raise e, w1)
  | (Ok a, w1) =>
      let w2 := log (EvSearch (bearer a) SEARCH_INDEX "*") w1 in
      match search (globus w1) (bearer a) SEARCH_INDEX "*" with
      | Reply data => (Ok tt, log (EvPrint (dumps_indent 4 data)) w2)
      | Failure message => (Raise (GlobusError message), w2)
      end
  end.
Proof.
  unfold main. cbv zeta. rewrite bind_run.
  destruct (get_native_app_authorizer CLIENT_ID "search.api.globus.org" w)
    as [[a|e] w1]; [|reflexivity].
  unfold search_client_search, bind, emit, py_print, emit, SEARCH_INDEX.
  autorewrite with world.
  destruct (search (globus w1) (bearer a) "3e117028-2513-4f5b-b53c-90fda3cd328b" "*");
    reflexivity.
Qed.

(** When no authorizer is built, [main] stops there: no query, no output. *)
Lemma main_without_authorizer (w : world) (e : exn) :
  fst (get_native_app_authorizer CLIENT_ID "search.api.globus.org" w) = Raise e ->
  fst (main w) = Raise e
  /\ events_of main w
     = events_of (get_native_app_authorizer CLIENT_ID "search.api.globus.org") w.
Proof.
  intros Hf.
  assert (Hm : main w
               = (Raise e, snd (get_native_app_authorizer CLIENT_ID
                                  "search.api.globus.org" w))).
  { rewrite main_run. revert Hf.
    destruct (get_native_app_authorizer CLIENT_ID "search.api.globus.org" w)
      as [[a|e'] w1]; cbn [fst snd]; intros Hf; [discriminate|].
    injection Hf as ->. reflexivity. }
  split; [rewrite Hm; reflexivity|].
  unfold events_of. rewrite Hm. reflexivity.
Qed.

(** C7. [main] takes the native path only and, once it has its authorizer,
    sends exactly one query, the match-everything query [*] on the one
    hardcoded index, with that authorizer's access token; it then prints
    [json.dumps(r.data, indent=4)] and does nothing else.  The confidential
    authenticator is never invoked. *)
Theorem main_runs_one_query (w : world) (a : authorizer) :
  fst (get_native_app_authorizer CLIENT_ID "search.api.globus.org" w) = Ok a ->
  let factory_events :=
    events_of (get_native_app_authorizer CLIENT_ID "search.api.globus.org") w in
  let evs := events_of main w in
  on_refresh_of a = Some update_tokens_file_on_refresh
  /\ calls "do_client_credentials_app_authentication" evs = 0%nat
  /\ searches evs = [EvSearch (bearer a) "3e117028-2513-4f5b-b53c-90fda3cd328b" "*"]
  /\ match search (globus w) (bearer a) "3e117028-2513-4f5b-b53c-90fda3cd328b" "*" with
     | Reply data =>
         fst (main w) = Ok tt
         /\ evs = factory_events
                  ++ [EvSearch (bearer a) "3e117028-2513-4f5b-b53c-90fda3cd328b" "*";
                      EvPrint (dumps_indent 4 data)]
     | Failure message =>
         fst (main w) = Raise (GlobusError message)
         /\ evs = factory_events
                  ++ [EvSearch (bearer a) "3e117028-2513-4f5b-b53c-90fda3cd328b" "*"]
     end.
Proof.
  intros Hf. cbv zeta.
  pose proof (factory_callback _ _ _ _ Hf) as Hcb.
  destruct (factory_frame CLIENT_ID "search.api.globus.org" w)
    as (Htr & Hg & Hsearch & Hconf).
  cbv zeta in Htr, Hsearch, Hconf.
  set (fev := events_of (get_native_app_authorizer CLIENT_ID "search.api.globus.org") w) in *.
  change "3e117028-2513-4f5b-b53c-90fda3cd328b" with SEARCH_INDEX.
  assert (Hmain : main w =
            let w1 := snd (get_native_app_authorizer CLIENT_ID "search.api.globus.org" w) in
            let w2 := log (EvSearch (bearer a) SEARCH_INDEX "*") w1 in
            match search (globus w) (bearer a) SEARCH_INDEX "*" with
            | Reply data => (Ok tt, log (EvPrint (dumps_indent 4 data)) w2)
            | Failure message => (Raise (GlobusError message), w2)
            end).
  { rewrite main_run. clear Htr. revert Hf Hg.
    destruct (get_native_app_authorizer CLIENT_ID "search.api.globus.org" w)
      as [[a'|e] w1]; cbn [fst snd]; intros Hf Hg; [|discriminate].
    injection Hf as ->. rewrite Hg. reflexivity. }
  cbv zeta in Hmain.
  assert (Hev : events_of main w =
            fev ++ EvSearch (bearer a) SEARCH_INDEX "*"
              :: match search (globus w) (bearer a) SEARCH_INDEX "*" with
                 | Reply data => [EvPrint (dumps_indent 4 data)]
                 | Failure _ => []
                 end).
  { apply events_of_app. rewrite Hmain.
    destruct (search (globus w) (bearer a) SEARCH_INDEX "*"); cbn [snd];
      autorewrite with world; rewrite Htr; repeat rewrite <- app_assoc; reflexivity. }
  split; [exact Hcb|]. split; [|split].
  - rewrite Hev, calls_app, Hconf.
    destruct (search (globus w) (bearer a) SEARCH_INDEX "*"); reflexivity.
  - rewrite Hev. unfold searches in *. rewrite List.filter_app, Hsearch.
    destruct (search (globus w) (bearer a) SEARCH_INDEX "*"); reflexivity.
  - rewrite Hev, Hmain.
    destruct (search (globus w) (bearer a) SEARCH_INDEX "*"); split; reflexivity.
Qed.

Lemma main_runs_one_query_witness :
  calls "do_client_credentials_app_authentication" (events_of main fresh_world) = 0%nat
  /\ searches (events_of main fresh_world)
     = [EvSearch (JStr "AgSearch") "3e117028-2513-4f5b-b53c-90fda3cd328b" "*"]
  /\ fst (main fresh_world) = Ok tt
  /\ events_of main fresh_world
     = events_of (get_native_app_authorizer CLIENT_ID "search.api.globus.org") fresh_world
       ++ [EvSearch (JStr "AgSearch") "3e117028-2513-4f5b-b53c-90fda3cd328b" "*";
           EvPrint (dumps_indent 4 sample_data)].
Proof.
  destruct (main_runs_one_query fresh_world
              (RefreshTokenAuthorizer (JStr "RtSearch") (NativeAppAuthClient CLIENT_ID)
                 (JStr "AgSearch") (JInt 1530000000) update_tokens_file_on_refresh)
              eq_refl) as (_ & H1 & H2 & H3 & H4).
  exact (conj H1 (conj H2 (conj H3 H4))).
Defined.

Example main_output_sample :
  dumps_indent 4 (JObj [("count", JInt 1); ("gmeta", JArr [JStr "doc"; JObj []])])
  = "{" +:+ String "010" ("    " +:+ String dquote ("count" +:+ String dquote (": 1,"
      +:+ String "010" ("    " +:+ String dquote ("gmeta" +:+ String dquote (": ["
      +:+ String "010" ("        " +:+ String dquote ("doc" +:+ String dquote (","
      +:+ String "010" ("        {}"
      +:+ String "010" ("    ]"
      +:+ String "010" "}"))))))))))).
Proof. reflexivity. Qed.

Lemma on_refresh_run (response : token_response) (w : world) :
  update_tokens_file_on_refresh response w =
  if unwritable w TOKEN_FILE
  then (Raise (PermissionError TOKEN_FILE), log (EvOpen TOKEN_FILE "w") w)
  else (Ok tt, set_files (<[TOKEN_FILE := dumps (by_resource_server response)]> (files w))
                 (log (EvOpen TOKEN_FILE "w") w)).
Proof. reflexivity. Qed.

(** C1, as amended. When the on-refresh callback of the authorizer built by
    [get_native_app_authorizer] is invoked with a token response and the
    cache file can be written, the whole [by_resource_server] mapping of
    that response replaces the content of the cache file: loading the file
    returns that mapping, so the file holds a record for a service exactly
    when the response's mapping does, with the same content; other files
    are untouched.  Nothing of the previous content is merged in. *)
Theorem on_refresh_rewrites_whole_mapping (client_id service : string)
    (w : world) (a : authorizer) (response : token_response) (w' : world) :
  fst (get_native_app_authorizer client_id service w) = Ok a ->
  unwritable w' TOKEN_FILE = false ->
  wf_json (by_resource_server response) = true ->
  exists on_refresh,
    on_refresh_of a = Some on_refresh
    /\ fst (on_refresh response w') = Ok tt
    /\ files (snd (on_refresh response w'))
       = <[TOKEN_FILE := dumps (by_resource_server response)]> (files w')
    /\ fst (load_tokens_from_file TOKEN_FILE (snd (on_refresh response w')))
       = Ok (by_resource_server response)
    /\ forall s, cached_record (snd (on_refresh response w')) s
                 = record_of (by_resource_server response) s.
Proof.
  intros Hf Hw Hwf. exists update_tokens_file_on_refresh.
  split; [exact (factory_callback _ _ _ _ Hf)|].
  rewrite on_refresh_run, Hw. cbn [fst snd].
  split; [reflexivity|]. split; [reflexivity|]. split.
  - rewrite load_run. cbn [fst]. autorewrite with world.
    rewrite lookup_insert_eq, (loads_dumps _ Hwf). reflexivity.
  - intros s. unfold cached_record, record_of. autorewrite with world.
    rewrite lookup_insert_eq, (loads_dumps _ Hwf). reflexivity.
Qed.

Lemma on_refresh_rewrites_whole_mapping_witness :
  exists on_refresh,
    on_refresh_of (RefreshTokenAuthorizer (JStr "RtSearch") (NativeAppAuthClient CLIENT_ID)
                     (JStr "AgSearch") (JInt 1530000000) update_tokens_file_on_refresh)
    = Some on_refresh
    /\ fst (on_refresh {| by_resource_server := sample_tokens |} fresh_world) = Ok tt
    /\ files (snd (on_refresh {| by_resource_server := sample_tokens |} fresh_world))
       = <[TOKEN_FILE := dumps sample_tokens]> (files fresh_world)
    /\ fst (load_tokens_from_file TOKEN_FILE
              (snd (on_refresh {| by_resource_server := sample_tokens |} fresh_world)))
       = Ok sample_tokens
    /\ forall s, cached_record
                   (snd (on_refresh {| by_resource_server := sample_tokens |} fresh_world)) s
                 = record_of sample_tokens s.
Proof.
  exact (on_refresh_rewrites_whole_mapping CLIENT_ID "search.api.globus.org" cached_world
           (RefreshTokenAuthorizer (JStr "RtSearch") (NativeAppAuthClient CLIENT_ID)
              (JStr "AgSearch") (JInt 1530000000) update_tokens_file_on_refresh)
           {| by_resource_server := sample_tokens |} fresh_world
           eq_refl eq_refl eq_refl).
Defined.

(** C1 as stated fails.  The cache holds the records of [auth.globus.org]
    and [search.api.globus.org]; the authorizer is built from it; its
    callback is invoked with the response of a refresh of the search token,
    whose mapping holds the search record alone.  Afterwards the record of
    [auth.globus.org] is no longer in the cache file. *)
Lemma on_refresh_drops_other_records :
  fst (get_native_app_authorizer CLIENT_ID "search.api.globus.org" cached_world)
  = Ok (RefreshTokenAuthorizer (JStr "RtSearch") (NativeAppAuthClient CLIENT_ID)
          (JStr "AgSearch") (JInt 1530000000) update_tokens_file_on_refresh)
  /\ cached_record cached_world "auth.globus.org" = Some auth_record
  /\ fst (update_tokens_file_on_refresh refresh_response cached_world) = Ok tt
  /\ cached_record (snd (update_tokens_file_on_refresh refresh_response cached_world))
       "search.api.globus.org" = Some refreshed_search_record
  /\ cached_record (snd (update_tokens_file_on_refresh refresh_response cached_world))
       "auth.globus.org" = None.
Proof.
  split; [reflexivity|].
  split; [vm_compute; reflexivity|].
  split; [reflexivity|].
  split; vm_compute; reflexivity.
Qed.

(** *** The remote-session check *)

Lemma remote_value_truthy (w : world) :
  truthy (remote_value w) =
  match environ w !! "SSH_TTY" with
  | Some v => negb (String.eqb v EmptyString)
  | None => set_nonempty w "SSH_CONNECTION"
  end.
Proof.
  unfold remote_value, set_nonempty.
  destruct (environ w !! "SSH_TTY"); [reflexivity|].
  destruct (environ w !! "SSH_CONNECTION"); reflexivity.
Qed.

Lemma browser_launches_of_native_auth (client_id redirect_uri : string)
    (scopes : option string) (w : world) :
  browser_launches (events_of (do_native_app_authentication client_id redirect_uri scopes) w)
  = if truthy (remote_value w) then []
    else [EvBrowser (if String.eqb (platform w) "darwin" then Some "safari" else None)
            (oauth2_get_authorize_url (globus w) client_id redirect_uri scopes)].
Proof.
  destruct (native_auth_effects client_id redirect_uri scopes w)
    as (_ & _ & _ & evs & Htr & _ & _ & _ & _ & Hb).
  rewrite (events_of_app _ _ _ Htr). exact Hb.
Qed.

(** With both variables unset or empty the browser is launched. *)
Lemma no_ssh_variables_launch_browser (client_id redirect_uri : string)
    (scopes : option string) (w : world) :
  set_nonempty w "SSH_TTY" = false ->
  set_nonempty w "SSH_CONNECTION" = false ->
  length (browser_launches
            (events_of (do_native_app_authentication client_id redirect_uri scopes) w))
  = 1%nat.
Proof.
  intros Htty Hconn. rewrite browser_launches_of_native_auth, remote_value_truthy.
  unfold set_nonempty in Htty. destruct (environ w !! "SSH_TTY").
  - rewrite Htty. reflexivity.
  - rewrite Hconn. reflexivity.
Qed.

(** With [SSH_TTY] non-empty, or [SSH_TTY] unset and [SSH_CONNECTION]
    non-empty, no browser is launched. *)
Lemma ssh_session_skips_browser (client_id redirect_uri : string)
    (scopes : option string) (w : world) :
  set_nonempty w "SSH_TTY" = true
  \/ (environ w !! "SSH_TTY" = None /\ set_nonempty w "SSH_CONNECTION" = true) ->
  browser_launches (events_of (do_native_app_authentication client_id redirect_uri scopes) w)
  = [].
Proof.
  intros H. rewrite browser_launches_of_native_auth, remote_value_truthy.
  unfold set_nonempty in H. destruct H as [H | [H1 H2]].
  - destruct (environ w !! "SSH_TTY"); [rewrite H; reflexivity | discriminate].
  - rewrite H1. unfold set_nonempty. rewrite H2. reflexivity.
Qed.

(** C2, the failing input.  [SSH_CONNECTION] is set to a non-empty value and
    [SSH_TTY] is set to the empty string: [is_remote_session] returns the
    empty string, which is false, and the native authenticator launches the
    browser although one of the two variables is non-empty. *)
Theorem empty_ssh_tty_hides_ssh_connection :
  set_nonempty ssh_empty_tty_world "SSH_CONNECTION" = true
  /\ fst (is_remote_session ssh_empty_tty_world) = Ok (JStr EmptyString)
  /\ browser_launches
       (events_of (do_native_app_authentication CLIENT_ID REDIRECT_URI (Some SCOPES))
          ssh_empty_tty_world)
     = [EvBrowser None
          ("https://auth.globus.org/v2/oauth2/authorize?client_id=" +:+ CLIENT_ID)].
Proof. repeat split; vm_compute; reflexivity. Qed.

(** C3, the failing input.  The cache file cannot be written and the
    callback [update_tokens_file_on_refresh] is invoked: the error of the
    write leaves the callback, whereas the same failing save inside
    [get_native_app_authorizer] is caught and the factory returns its
    authorizer. *)
Theorem on_refresh_write_failure_escapes :
  fst (update_tokens_file_on_refresh refresh_response readonly_world)
  = Raise (PermissionError TOKEN_FILE)
  /\ fst (try_except (save_tokens_to_file TOKEN_FILE (by_resource_server refresh_response))
            (ret tt) readonly_world)
     = Ok tt.
Proof. split; reflexivity. Qed.

(** The callback raises whenever the write fails. *)
Lemma on_refresh_raises (response : token_response) (w : world) :
  unwritable w TOKEN_FILE = true ->
  fst (update_tokens_file_on_refresh response w) = Raise (PermissionError TOKEN_FILE).
Proof. intros H. rewrite on_refresh_run, H. reflexivity. Qed.

(** * Further properties of the script *)

(** ** The authorizer factory and the cache *)

Lemma cached_tokens_of_file (w : world) (text : string) (tokens : json) :
  files w !! TOKEN_FILE = Some text -> loads text = Some tokens ->
  cached_tokens w = tokens.
Proof. intros Hf Hl. unfold cached_tokens. rewrite Hf, Hl. reflexivity. Qed.

Lemma authorizer_from_complete (client_id service : string)
    (tokens record refresh_token access_token expires_at : json) :
  getitem tokens service = Ok record ->
  getitem record "refresh_token" = Ok refresh_token ->
  getitem record "access_token" = Ok access_token ->
  getitem record "expires_at_seconds" = Ok expires_at ->
  authorizer_from client_id tokens service
  = Ok (RefreshTokenAuthorizer refresh_token (NativeAppAuthClient client_id)
          access_token expires_at update_tokens_file_on_refresh).
Proof. intros H1 H2 H3 H4. unfold authorizer_from. rewrite H1, H2, H3, H4. reflexivity. Qed.

(** X1. A cache file that holds a complete record for the service is used as
    it is: the authorizer is built from the cached refresh token, access
    token and expiry; the only effect is one read of the cache file (no
    authenticator, no prompt, no browser, no write), and the files and the
    pending input are left as they were. *)
Theorem cached_tokens_are_used (client_id service text : string)
    (tokens record refresh_token access_token expires_at : json) (w : world) :
  files w !! TOKEN_FILE = Some text ->
  loads text = Some tokens ->
  truthy tokens = true ->
  getitem tokens service = Ok record ->
  getitem record "refresh_token" = Ok refresh_token ->
  getitem record "access_token" = Ok access_token ->
  getitem record "expires_at_seconds" = Ok expires_at ->
  fst (get_native_app_authorizer client_id service w)
  = Ok (RefreshTokenAuthorizer refresh_token (NativeAppAuthClient client_id)
          access_token expires_at update_tokens_file_on_refresh)
  /\ events_of (get_native_app_authorizer client_id service) w = [EvOpen TOKEN_FILE "r"]
  /\ files (snd (get_native_app_authorizer client_id service w)) = files w
  /\ stdin (snd (get_native_app_authorizer client_id service w)) = stdin w.
Proof.
  intros Hf Hl Ht H1 H2 H3 H4.
  pose proof (cached_tokens_of_file w text tokens Hf Hl) as Hc.
  assert (Hhit : truthy (cached_tokens w) = true) by (rewrite Hc; exact Ht).
  destruct (factory_hit_effects client_id service w Hhit) as (Hres & Hfiles & Hev).
  split; [|split; [|split]].
  - rewrite Hres, Hc. apply (authorizer_from_complete _ _ _ record); assumption.
  - exact Hev.
  - exact Hfiles.
  - rewrite (factory_hit _ _ _ Hhit). reflexivity.
Qed.

Lemma cached_tokens_are_used_witness :
  fst (get_native_app_authorizer CLIENT_ID "search.api.globus.org" cached_world)
  = Ok (RefreshTokenAuthorizer (JStr "RtSearch") (NativeAppAuthClient CLIENT_ID)
          (JStr "AgSearch") (JInt 1530000000) update_tokens_file_on_refresh)
  /\ events_of (get_native_app_authorizer CLIENT_ID "search.api.globus.org") cached_world
     = [EvOpen TOKEN_FILE "r"]
  /\ files (snd (get_native_app_authorizer CLIENT_ID "search.api.globus.org" cached_world))
     = files cached_world
  /\ stdin (snd (get_native_app_authorizer CLIENT_ID "search.api.globus.org" cached_world))
     = stdin cached_world.
Proof.
  apply (cached_tokens_are_used CLIENT_ID "search.api.globus.org" (dumps sample_tokens)
           sample_tokens search_record (JStr "RtSearch") (JStr "AgSearch") (JInt 1530000000)
           cached_world).
  - reflexivity.
  - vm_compute. reflexivity.
  - reflexivity.
  - reflexivity.
  - reflexivity.
  - reflexivity.
  - reflexivity.
Defined.

(** X2. A cache file that decodes to a true value that is not a mapping (a
    non-empty list, a non-zero number, a non-empty string, [true]) is not
    treated as a miss: the factory raises [TypeError] at [tokens[service]]
    and does not authenticate. *)
Theorem cached_non_mapping_raises (client_id service text : string) (tokens : json)
    (w : world) :
  files w !! TOKEN_FILE = Some text ->
  loads text = Some tokens ->
  truthy tokens = true ->
  (forall d, tokens <> JObj d) ->
  fst (get_native_app_authorizer client_id service w) = Raise TypeError
  /\ calls "do_native_app_authentication"
       (events_of (get_native_app_authorizer client_id service) w) = 0%nat.
Proof.
  intros Hf Hl Ht Hno.
  pose proof (cached_tokens_of_file w text tokens Hf Hl) as Hc.
  assert (Hhit : truthy (cached_tokens w) = true) by (rewrite Hc; exact Ht).
  destruct (factory_hit_effects client_id service w Hhit) as (Hres & _ & Hev).
  split; [|rewrite Hev; reflexivity].
  rewrite Hres, Hc. unfold authorizer_from.
  destruct tokens as [| | | | |d]; try reflexivity.
  exfalso. exact (Hno d eq_refl).
Qed.

Lemma cached_non_mapping_raises_witness :
  fst (get_native_app_authorizer CLIENT_ID "search.api.globus.org" list_cache_world)
  = Raise TypeError
  /\ calls "do_native_app_authentication"
       (events_of (get_native_app_authorizer CLIENT_ID "search.api.globus.org")
          list_cache_world) = 0%nat.
Proof.
  apply (cached_non_mapping_raises CLIENT_ID "search.api.globus.org" "[1]"
           (JArr [JInt 1]) list_cache_world).
  - reflexivity.
  - reflexivity.
  - reflexivity.
  - intros d H. discriminate H.
Defined.

(** X3. A cached record without a refresh token stops the factory with
    [KeyError('refresh_token')], whatever else the record holds; the record
    is not repaired by authenticating again. *)
Theorem cached_record_without_refresh_token (client_id service text : string)
    (tokens : json) (fields : list (string * json)) (w : world) :
  files w !! TOKEN_FILE = Some text ->
  loads text = Some tokens ->
  getitem tokens service = Ok (JObj fields) ->
  dict_get "refresh_token" fields = None ->
  fst (get_native_app_authorizer client_id service w) = Raise (KeyError "refresh_token")
  /\ calls "do_native_app_authentication"
       (events_of (get_native_app_authorizer client_id service) w) = 0%nat.
Proof.
  intros Hf Hl Hrec Hnone.
  pose proof (cached_tokens_of_file w text tokens Hf Hl) as Hc.
  assert (Hhit : truthy (cached_tokens w) = true).
  { rewrite Hc. destruct tokens as [| | | | |[|kv d]]; try discriminate Hrec; reflexivity. }
  destruct (factory_hit_effects client_id service w Hhit) as (Hres & _ & Hev).
  split; [|rewrite Hev; reflexivity].
  rewrite Hres, Hc. unfold authorizer_from. rewrite Hrec. simpl. rewrite Hnone. reflexivity.
Qed.

Lemma cached_record_without_refresh_token_witness :
  fst (get_native_app_authorizer CLIENT_ID "search.api.globus.org" access_only_world)
  = Raise (KeyError "refresh_token")
  /\ calls "do_native_app_authentication"
       (events_of (get_native_app_authorizer CLIENT_ID "search.api.globus.org")
          access_only_world) = 0%nat.
Proof.
  apply (cached_record_without_refresh_token CLIENT_ID "search.api.globus.org"
           (dumps access_only_tokens) access_only_tokens
           [("access_token", JStr "AgSearch"); ("expires_at_seconds", JInt 1530000000)]
           access_only_world).
  - reflexivity.
  - vm_compute. reflexivity.
  - reflexivity.
  - reflexivity.
Defined.

(** X4. A failed authentication is not cached: when the cache is missed and
    the native authenticator raises (no input, or the code is rejected), the
    factory raises the same exception, never opens the cache file for
    writing, and leaves every file as it was. *)
Theorem failed_authentication_writes_nothing (client_id service : string) (e : exn)
    (w : world) :
  truthy (cached_tokens w) = false ->
  exchanged w = Raise e ->
  fst (get_native_app_authorizer client_id service w) = Raise e
  /\ opens TOKEN_FILE (events_of (get_native_app_authorizer client_id service) w)
     = [EvOpen TOKEN_FILE "r"]
  /\ files (snd (get_native_app_authorizer client_id service w)) = files w.
Proof.
  intros Hmiss Hex.
  destruct (factory_miss_effects client_id service w Hmiss)
    as (Hres & Hfiles & evs & Hev & _ & _ & Hnofile & _).
  rewrite Hex in Hres, Hfiles, Hev.
  split; [exact Hres|]. split; [|exact Hfiles].
  rewrite Hev, app_nil_r.
  change (EvOpen TOKEN_FILE "r" :: EvCall "do_native_app_authentication" :: evs)
    with ([EvOpen TOKEN_FILE "r"; EvCall "do_native_app_authentication"] ++ evs).
  rewrite opens_app, (opens_of_file_events _ _ Hnofile). reflexivity.
Qed.

Lemma failed_authentication_writes_nothing_witness :
  fst (get_native_app_authorizer CLIENT_ID "search.api.globus.org" rejecting_world)
  = Raise (GlobusError "invalid_grant")
  /\ opens TOKEN_FILE
       (events_of (get_native_app_authorizer CLIENT_ID "search.api.globus.org")
          rejecting_world)
     = [EvOpen TOKEN_FILE "r"]
  /\ files (snd (get_native_app_authorizer CLIENT_ID "search.api.globus.org" rejecting_world))
     = files rejecting_world.
Proof.
  exact (failed_authentication_writes_nothing CLIENT_ID "search.api.globus.org"
           (GlobusError "invalid_grant") rejecting_world eq_refl eq_refl).
Defined.

(** X5. Write-through, then read-through: after a run that missed the
    cache, authenticated and saved well-formed, non-empty tokens, a second
    run builds its authorizer from those tokens with one read of the cache
    file and without authenticating; asked for the same service it returns
    what the first run returned. *)
Theorem second_run_uses_saved_tokens (client_id service service' : string)
    (tokens : json) (w : world) :
  truthy (cached_tokens w) = false ->
  exchanged w = Ok tokens ->
  unwritable w TOKEN_FILE = false ->
  wf_json tokens = true ->
  truthy tokens = true ->
  fst (get_native_app_authorizer client_id service'
         (snd (get_native_app_authorizer client_id service w)))
  = authorizer_from client_id tokens service'
  /\ events_of (get_native_app_authorizer client_id service')
       (snd (get_native_app_authorizer client_id service w))
     = [EvOpen TOKEN_FILE "r"]
  /\ fst (get_native_app_authorizer client_id service
            (snd (get_native_app_authorizer client_id service w)))
     = fst (get_native_app_authorizer client_id service w).
Proof.
  intros Hmiss Hex Hw Hwf Ht.
  destruct (factory_miss_effects client_id service w Hmiss) as (Hres & Hfiles & _).
  rewrite Hex in Hres, Hfiles. rewrite Hw in Hfiles.
  set (w1 := snd (get_native_app_authorizer client_id service w)) in *.
  assert (Hc : cached_tokens w1 = tokens).
  { apply (cached_tokens_of_file w1 (dumps tokens)).
    - rewrite Hfiles. apply lookup_insert_eq.
    - apply loads_dumps, Hwf. }
  assert (Hhit : truthy (cached_tokens w1) = true) by (rewrite Hc; exact Ht).
  split; [|split].
  - destruct (factory_hit_effects client_id service' w1 Hhit) as (-> & _).
    rewrite Hc. reflexivity.
  - destruct (factory_hit_effects client_id service' w1 Hhit) as (_ & _ & Hev). exact Hev.
  - destruct (factory_hit_effects client_id service w1 Hhit) as (-> & _).
    rewrite Hc, Hres. reflexivity.
Qed.

Lemma second_run_uses_saved_tokens_witness :
  fst (get_native_app_authorizer CLIENT_ID "auth.globus.org"
         (snd (get_native_app_authorizer CLIENT_ID "search.api.globus.org" fresh_world)))
  = authorizer_from CLIENT_ID sample_tokens "auth.globus.org"
  /\ events_of (get_native_app_authorizer CLIENT_ID "auth.globus.org")
       (snd (get_native_app_authorizer CLIENT_ID "search.api.globus.org" fresh_world))
     = [EvOpen TOKEN_FILE "r"]
  /\ fst (get_native_app_authorizer CLIENT_ID "search.api.globus.org"
            (snd (get_native_app_authorizer CLIENT_ID "search.api.globus.org" fresh_world)))
     = fst (get_native_app_authorizer CLIENT_ID "search.api.globus.org" fresh_world).
Proof.
  exact (second_run_uses_saved_tokens CLIENT_ID "search.api.globus.org" "auth.globus.org"
           sample_tokens fresh_world eq_refl eq_refl eq_refl eq_refl eq_refl).
Defined.

(** X6. What a refresh leaves for the next run: after the on-refresh
    callback has written a well-formed, non-empty response mapping, the next
    run of the factory builds its authorizer from that mapping without
    authenticating; a service the mapping has no record for gets
    [KeyError], not a new authentication. *)
Theorem next_run_after_refresh (client_id service : string) (response : token_response)
    (w : world) :
  unwritable w TOKEN_FILE = false ->
  wf_json (by_resource_server response) = true ->
  truthy (by_resource_server response) = true ->
  let w1 := snd (update_tokens_file_on_refresh response w) in
  fst (get_native_app_authorizer client_id service w1)
  = authorizer_from client_id (by_resource_server response) service
  /\ events_of (get_native_app_authorizer client_id service) w1 = [EvOpen TOKEN_FILE "r"]
  /\ match by_resource_server response with
     | JObj d =>
         match dict_get service d with
         | None => fst (get_native_app_authorizer client_id service w1)
                   = Raise (KeyError service)
         | Some _ => True
         end
     | _ => True
     end.
Proof.
  intros Hw Hwf Ht w1. subst w1.
  set (w1 := snd (update_tokens_file_on_refresh response w)).
  assert (Hc : cached_tokens w1 = by_resource_server response).
  { apply (cached_tokens_of_file w1 (dumps (by_resource_server response))).
    - subst w1. rewrite on_refresh_run, Hw. cbn [snd]. autorewrite with world.
      apply lookup_insert_eq.
    - apply loads_dumps, Hwf. }
  assert (Hhit : truthy (cached_tokens w1) = true) by (rewrite Hc; exact Ht).
  destruct (factory_hit_effects client_id service w1 Hhit) as (Hres & _ & Hev).
  rewrite Hres, Hc. split; [reflexivity|]. split; [exact Hev|].
  destruct (by_resource_server response) as [| | | | |d]; try exact I.
  destruct (dict_get service d) eqn:Hd; [exact I|].
  unfold authorizer_from. simpl. rewrite Hd. reflexivity.
Qed.

Lemma next_run_after_refresh_witness :
  fst (get_native_app_authorizer CLIENT_ID "auth.globus.org"
         (snd (update_tokens_file_on_refresh refresh_response cached_world)))
  = Raise (KeyError "auth.globus.org")
  /\ events_of (get_native_app_authorizer CLIENT_ID "auth.globus.org")
       (snd (update_tokens_file_on_refresh refresh_response cached_world))
     = [EvOpen TOKEN_FILE "r"].
Proof.
  destruct (next_run_after_refresh CLIENT_ID "auth.globus.org" refresh_response cached_world
              eq_refl eq_refl eq_refl) as (_ & H2 & H3).
  exact (conj H3 H2).
Defined.

(** ** [main] *)



(** X8. When the factory raises (cache without the service, rejected code,
    end of input, ...), [main] raises the same exception and stops: it sends
    no query, and its effects are those of the factory alone. *)
Theorem main_stops_without_authorizer (w : world) (e : exn) :
  fst (get_native_app_authorizer CLIENT_ID "search.api.globus.org" w) = Raise e ->
  fst (main w) = Raise e
  /\ searches (events_of main w) = []
  /\ events_of main w
     = events_of (get_native_app_authorizer CLIENT_ID "search.api.globus.org") w.
Proof.
  intros Hf. destruct (main_without_authorizer w e Hf) as [Hres Hev].
  destruct (factory_frame CLIENT_ID "search.api.globus.org" w) as (_ & _ & Hsearch & _).
  cbv zeta in Hsearch.
  split; [exact Hres|]. split; [rewrite Hev; exact Hsearch | exact Hev].
Qed.

Lemma main_stops_without_authorizer_witness :
  fst (main rejecting_world) = Raise (GlobusError "invalid_grant")
  /\ searches (events_of main rejecting_world) = []
  /\ events_of main rejecting_world
     = events_of (get_native_app_authorizer CLIENT_ID "search.api.globus.org")
         rejecting_world.
Proof.
  exact (main_stops_without_authorizer rejecting_world (GlobusError "invalid_grant") eq_refl).
Defined.

(** ** The native authenticator *)

Lemma native_auth_events (client_id redirect_uri : string)
    (scopes : option string) (w : world) :
  events_of (do_native_app_authentication client_id redirect_uri scopes) w
  = [EvCall "do_native_app_authentication";
     EvStartFlow client_id scopes redirect_uri true;
     EvPrint ("Native App Authorization URL: " +:+ String "010"
                (oauth2_get_authorize_url (globus w) client_id redirect_uri scopes))]
    ++ (if truthy (remote_value w) then []
        else [EvBrowser (if String.eqb (platform w) "darwin" then Some "safari" else None)
                (oauth2_get_authorize_url (globus w) client_id redirect_uri scopes)])
    ++ EvInput "Enter the auth code: "
       :: match stdin w with
          | [] => []
          | line :: _ => [EvExchangeCode (strip line)]
          end.
Proof.
  apply events_of_app. rewrite native_auth_run. cbv zeta.
  destruct (truthy (remote_value w)); destruct (stdin w) as [|line rest];
    cbn [snd]; autorewrite with world; repeat rewrite <- app_assoc; reflexivity.
Qed.

(** X9. When the browser is launched.  The native authenticator launches a
    browser at most once: never when [SSH_TTY] is set to a non-empty value;
    when [SSH_TTY] is unset, only if [SSH_CONNECTION] is unset or empty;
    always when [SSH_TTY] is set to the empty string.  The launch goes
    through Safari on [darwin] and through the default browser elsewhere,
    and opens the URL that was printed. *)
Theorem browser_launch_condition (client_id redirect_uri : string)
    (scopes : option string) (w : world) :
  let url := oauth2_get_authorize_url (globus w) client_id redirect_uri scopes in
  let evs := events_of (do_native_app_authentication client_id redirect_uri scopes) w in
  browser_launches evs =
    (if match environ w !! "SSH_TTY" with
        | Some v => negb (String.eqb v EmptyString)
        | None => set_nonempty w "SSH_CONNECTION"
        end
     then []
     else [EvBrowser (if String.eqb (platform w) "darwin" then Some "safari" else None) url])
  /\ In (EvPrint ("Native App Authorization URL: " +:+ String "010" url)) evs.
Proof.
  cbv zeta. split.
  - rewrite browser_launches_of_native_auth, remote_value_truthy. reflexivity.
  - rewrite native_auth_events. simpl. right. right. left. reflexivity.
Qed.

(** X10. The native authenticator, effect by effect: it starts the flow
    with refresh tokens requested, prints the authorization URL, launches
    the browser unless the session is remote, then prompts once and sends
    the stripped line for exchange.  It consumes exactly one line of input,
    changes no file, and returns what the exchange returns; at the end of
    input it raises [EOFError] without attempting an exchange. *)
Theorem native_authenticator_trace (client_id redirect_uri : string)
    (scopes : option string) (w : world) :
  let url := oauth2_get_authorize_url (globus w) client_id redirect_uri scopes in
  let run := do_native_app_authentication client_id redirect_uri scopes w in
  events_of (do_native_app_authentication client_id redirect_uri scopes) w
  = [EvCall "do_native_app_authentication";
     EvStartFlow client_id scopes redirect_uri true;
     EvPrint ("Native App Authorization URL: " +:+ String "010" url)]
    ++ (if truthy (remote_value w) then []
        else [EvBrowser (if String.eqb (platform w) "darwin" then Some "safari" else None)
                url])
    ++ EvInput "Enter the auth code: "
       :: match stdin w with
          | [] => []
          | line :: _ => [EvExchangeCode (strip line)]
          end
  /\ fst run = match stdin w with
               | [] => Raise EOFError
               | line :: _ =>
                   match oauth2_exchange_code_for_tokens (globus w) (strip line) with
                   | Reply response => Ok (by_resource_server response)
                   | Failure message => Raise (GlobusError message)
                   end
               end
  /\ stdin (snd run) = tl (stdin w)
  /\ files (snd run) = files w.
Proof.
  cbv zeta. split; [|split; [|split]].
  - apply native_auth_events.
  - rewrite native_auth_run. cbv zeta.
    destruct (stdin w) as [|line rest]; reflexivity.
  - rewrite native_auth_run. cbv zeta.
    destruct (truthy (remote_value w)); destruct (stdin w) as [|line rest] eqn:Hs;
      cbn [snd]; autorewrite with world; try rewrite Hs; reflexivity.
  - rewrite native_auth_run. cbv zeta.
    destruct (truthy (remote_value w)); destruct (stdin w) as [|line rest]; reflexivity.
Qed.

(** X11. The factory saves everything the authenticator returned, and it
    saves before it looks the service up: after a cache miss with a writable
    cache file, the file holds the whole returned mapping, so it holds a
    record for a service exactly when the mapping does, even when the
    factory then raises because the requested service is not in it. *)
Theorem fresh_tokens_are_saved_whole (client_id service : string) (tokens : json)
    (w : world) :
  truthy (cached_tokens w) = false ->
  exchanged w = Ok tokens ->
  unwritable w TOKEN_FILE = false ->
  wf_json tokens = true ->
  let w1 := snd (get_native_app_authorizer client_id service w) in
  files w1 = <[TOKEN_FILE := dumps tokens]> (files w)
  /\ fst (load_tokens_from_file TOKEN_FILE w1) = Ok tokens
  /\ forall s, cached_record w1 s = record_of tokens s.
Proof.
  intros Hmiss Hex Hw Hwf w1. subst w1.
  destruct (factory_miss_effects client_id service w Hmiss) as (_ & Hfiles & _).
  rewrite Hex, Hw in Hfiles.
  split; [exact Hfiles|]. split.
  - rewrite load_run. cbn [fst]. rewrite Hfiles, lookup_insert_eq, (loads_dumps _ Hwf).
    reflexivity.
  - intros s. unfold cached_record, record_of.
    rewrite Hfiles, lookup_insert_eq, (loads_dumps _ Hwf). reflexivity.
Qed.

Lemma fresh_tokens_are_saved_whole_witness :
  fst (get_native_app_authorizer CLIENT_ID "transfer.api.globus.org" fresh_world)
  = Raise (KeyError "transfer.api.globus.org")
  /\ files (snd (get_native_app_authorizer CLIENT_ID "transfer.api.globus.org" fresh_world))
     = <[TOKEN_FILE := dumps sample_tokens]> (files fresh_world)
  /\ fst (load_tokens_from_file TOKEN_FILE
            (snd (get_native_app_authorizer CLIENT_ID "transfer.api.globus.org" fresh_world)))
     = Ok sample_tokens.
Proof.
  destruct (fresh_tokens_are_saved_whole CLIENT_ID "transfer.api.globus.org" sample_tokens
              fresh_world eq_refl eq_refl eq_refl eq_refl) as (H1 & H2 & _).
  split; [reflexivity|]. exact (conj H1 H2).
Defined.

(** *** The authorization code is stripped *)

Lemma lstrip_spec (s : string) :
  exists pre, s = pre +:+ lstrip s
              /\ all_space pre = true
              /\ starts_with_space (lstrip s) = false.
Proof.
  induction s as [|c r (pre & Hr & Hpre & Hhead)]; [exists EmptyString; repeat split|].
  simpl lstrip. destruct (isspace c) eqn:Hc.
  - exists (String c pre). simpl. rewrite <- Hr, Hc, Hpre. repeat split. exact Hhead.
  - exists EmptyString. simpl. rewrite Hc. repeat split.
Qed.

Lemma rstrip_spec (s : string) :
  exists post, s = rstrip s +:+ post
               /\ all_space post = true
               /\ ends_with_space (rstrip s) = false.
Proof.
  induction s as [|c r (post & Hr & Hpost & Htail)]; [exists EmptyString; repeat split|].
  simpl rstrip. destruct (rstrip r) as [|c' r'] eqn:Hrs.
  - simpl in Hr. subst post. destruct (isspace c) eqn:Hc.
    + exists (String c r). simpl. rewrite Hc, Hpost. repeat split.
    + exists r. simpl. rewrite Hc. repeat split. exact Hpost.
  - exists post. split; [|split].
    + rewrite Hr. reflexivity.
    + exact Hpost.
    + exact Htail.
Qed.

Lemma rstrip_head (s : string) :
  starts_with_space s = false -> starts_with_space (rstrip s) = false.
Proof.
  destruct s as [|c r]; [reflexivity|]. simpl. intros Hc.
  destruct (rstrip r); [rewrite Hc|]; simpl; try rewrite Hc; reflexivity.
Qed.

Lemma append_assoc_string (a b c : string) : (a +:+ b) +:+ c = a +:+ b +:+ c.
Proof. induction a as [|x a IH]; simpl; [reflexivity|]. rewrite IH. reflexivity. Qed.

Lemma strip_spec (s : string) :
  exists pre post,
    s = pre +:+ strip s +:+ post
    /\ all_space pre = true /\ all_space post = true
    /\ starts_with_space (strip s) = false
    /\ ends_with_space (strip s) = false.
Proof.
  destruct (lstrip_spec s) as (pre & Hs & Hpre & Hhead).
  destruct (rstrip_spec (lstrip s)) as (post & Hl & Hpost & Htail).
  exists pre, post. unfold strip. split; [|split; [|split; [|split]]].
  - rewrite <- Hl. exact Hs.
  - exact Hpre.
  - exact Hpost.
  - apply rstrip_head, Hhead.
  - exact Htail.
Qed.

Lemma lstrip_fixed (s : string) : starts_with_space s = false -> lstrip s = s.
Proof. destruct s as [|c r]; [reflexivity|]. simpl. intros ->. reflexivity. Qed.

Lemma rstrip_fixed (s : string) : ends_with_space s = false -> rstrip s = s.
Proof.
  induction s as [|c r IH]; [reflexivity|]. simpl.
  destruct r as [|c' r'].
  - simpl. intros ->. reflexivity.
  - intros H. rewrite (IH H). reflexivity.
Qed.

(** X12. The code sent for exchange is the line the user typed without its
    leading and trailing whitespace: the line is that code between two runs
    of whitespace, the code neither starts nor ends with whitespace, and
    stripping it again changes nothing. *)
Theorem exchanged_code_is_stripped (client_id redirect_uri : string)
    (scopes : option string) (w : world) (line : string) (rest : list string) :
  stdin w = line :: rest ->
  In (EvExchangeCode (strip line))
     (events_of (do_native_app_authentication client_id redirect_uri scopes) w)
  /\ (exists pre post,
        line = pre +:+ strip line +:+ post
        /\ all_space pre = true /\ all_space post = true)
  /\ starts_with_space (strip line) = false
  /\ ends_with_space (strip line) = false
  /\ strip (strip line) = strip line.
Proof.
  intros Hs.
  destruct (strip_spec line) as (pre & post & Hl & Hpre & Hpost & Hhead & Htail).
  split; [|split; [|split; [|split]]].
  - rewrite native_auth_events, Hs.
    apply in_or_app. right. apply in_or_app. right. right. left. reflexivity.
  - exists pre, post. repeat split; assumption.
  - exact Hhead.
  - exact Htail.
  - unfold strip at 1. rewrite (lstrip_fixed _ Hhead). apply rstrip_fixed, Htail.
Qed.

Lemma exchanged_code_is_stripped_witness :
  In (EvExchangeCode "code123")
     (events_of (do_native_app_authentication CLIENT_ID REDIRECT_URI (Some SCOPES))
        fresh_world)
  /\ strip " code123 " = "code123".
Proof.
  destruct (exchanged_code_is_stripped CLIENT_ID REDIRECT_URI (Some SCOPES) fresh_world
              " code123 " [] eq_refl) as (H & _).
  split; [exact H | reflexivity].
Defined.

(** ** The text of the cache file *)

Lemma escape_char_printable (c : ascii) (k : string) :
  all_printable k = true -> all_printable (escape_char c k) = true.
Proof. each_ascii c; intros H; exact H. Qed.

Lemma escape_chars_printable (s k : string) :
  all_printable k = true -> all_printable (escape_chars s k) = true.
Proof.
  intros Hk. induction s as [|c s IH]; simpl; [exact Hk|].
  apply escape_char_printable, IH.
Qed.

Lemma write_string_printable (s k : string) :
  all_printable k = true -> all_printable (write_string s k) = true.
Proof.
  intros Hk. unfold write_string.
  change (all_printable (escape_chars s (String dquote k)) = true).
  apply escape_chars_printable. exact Hk.
Qed.

Lemma write_uint_printable (u : Decimal.uint) (k : string) :
  all_printable k = true -> all_printable (write_uint u k) = true.
Proof. intros Hk. induction u; simpl; assumption. Qed.

Lemma write_int_printable (n : Z) (k : string) :
  all_printable k = true -> all_printable (write_int n k) = true.
Proof.
  intros Hk. unfold write_int.
  destruct (Z.to_int n); [|change (all_printable (write_uint d k) = true)];
    apply write_uint_printable, Hk.
Qed.

Lemma write_printable (v : json) :
  forall k, all_printable k = true -> all_printable (write v k) = true.
Proof.
  induction v as [| b | n | s | xs IH | kvs IH] using json_nested_ind; intros k Hk.
  - exact Hk.
  - destruct b; exact Hk.
  - apply write_int_printable, Hk.
  - apply write_string_printable, Hk.
  - destruct xs as [|x xs]; [exact Hk|].
    rewrite write_arr_cons. inversion IH as [|? ? Hx Hxs]; subst.
    change (all_printable
              (write x (fold_right (fun y acc => ", " +:+ write y acc) (String "]" k) xs))
            = true).
    apply Hx. clear Hx IH.
    induction Hxs as [|y ys Hy _ IHys]; [exact Hk|].
    change (all_printable
              (write y (fold_right (fun y acc => ", " +:+ write y acc) (String "]" k) ys))
            = true).
    apply Hy, IHys.
  - destruct kvs as [|[key x] kvs]; [exact Hk|].
    rewrite write_obj_cons. inversion IH as [|? ? Hx Hxs]; subst. simpl in Hx.
    change (all_printable
              (write_string key (String ":" (String " " (write x
                 (fold_right
                    (fun kv acc => ", " +:+ write_string (fst kv) (": " +:+ write (snd kv) acc))
                    (String "}" k) kvs))))) = true).
    apply write_string_printable.
    change (all_printable
              (write x
                 (fold_right
                    (fun kv acc => ", " +:+ write_string (fst kv) (": " +:+ write (snd kv) acc))
                    (String "}" k) kvs)) = true).
    apply Hx. clear Hx IH.
    induction Hxs as [|[key' y] ys Hy _ IHys]; [exact Hk|]. simpl in Hy.
    change (all_printable
              (write_string key' (String ":" (String " " (write y
                 (fold_right
                    (fun kv acc => ", " +:+ write_string (fst kv) (": " +:+ write (snd kv) acc))
                    (String "}" k) ys))))) = true).
    apply write_string_printable.
    change (all_printable
              (write y
                 (fold_right
                    (fun kv acc => ", " +:+ write_string (fst kv) (": " +:+ write (snd kv) acc))
                    (String "}" k) ys)) = true).
    apply Hy, IHys.
Qed.

(** X13. Whatever the tokens contain (quotes, control characters, code
    points above 127 in a token or a key), the text [save_tokens_to_file]
    writes consists of printable ASCII characters only: the cache file is a
    single line without control characters. *)
Theorem saved_text_is_printable_ascii (filepath : string) (tokens : json) (w : world) :
  unwritable w filepath = false ->
  exists text,
    files (snd (save_tokens_to_file filepath tokens w)) !! filepath = Some text
    /\ text = dumps tokens
    /\ all_printable text = true.
Proof.
  intros Hw. exists (dumps tokens). split; [|split].
  - rewrite save_run, Hw. cbn [snd]. autorewrite with world. apply lookup_insert_eq.
  - reflexivity.
  - apply write_printable. reflexivity.
Qed.

Lemma saved_text_is_printable_ascii_witness :
  exists text,
    files (snd (save_tokens_to_file TOKEN_FILE
                  (JObj [("k", JStr (String "010" (String "233" (String dquote "x"))))])
                  fresh_world)) !! TOKEN_FILE = Some text
    /\ text = dumps (JObj [("k", JStr (String "010" (String "233" (String dquote "x"))))])
    /\ all_printable text = true.
Proof.
  exact (saved_text_is_printable_ascii TOKEN_FILE
           (JObj [("k", JStr (String "010" (String "233" (String dquote "x"))))])
           fresh_world eq_refl).
Defined.

(** ** Decoding what [main] prints *)








Lemma number_end_newline_indent (indent level : nat) (k : string) :
  number_end (newline_indent indent level k) = true.
Proof. reflexivity. Qed.







Section indent_loops.
Variable scan : string -> option (json * string).
Variables indent level : nat.


End indent_loops.













(** ** When a cached file is usable, and which files are touched *)



Lemma factory_files (client_id service : string) (w : world) :
  files (snd (get_native_app_authorizer client_id service w)) = files w
  \/ exists text,
       files (snd (get_native_app_authorizer client_id service w))
       = <[TOKEN_FILE := text]> (files w).
Proof.
  destruct (truthy (cached_tokens w)) eqn:Hc.
  - left. destruct (factory_hit_effects client_id service w Hc) as (_ & Hf & _). exact Hf.
  - destruct (factory_miss_effects client_id service w Hc) as (_ & Hf & _).
    destruct (exchanged w) as [tokens|e]; [|left; exact Hf].
    destruct (unwritable w TOKEN_FILE); [left; exact Hf|].
    right. exists (dumps tokens). exact Hf.
Qed.

Lemma main_files (w : world) :
  files (snd (main w))
  = files (snd (get_native_app_authorizer CLIENT_ID "search.api.globus.org" w)).
Proof.
  rewrite main_run.
  destruct (get_native_app_authorizer CLIENT_ID "search.api.globus.org" w)
    as [[a|e] w1]; [|reflexivity].
  cbv zeta. destruct (search (globus w1) (bearer a) SEARCH_INDEX "*"); reflexivity.
Qed.

(** X16. The only file the script ever changes is the token cache file:
    whatever happens in [get_native_app_authorizer], in the refresh callback
    or in [main], every other path holds afterwards what it held before. *)
Theorem only_the_token_file_changes (client_id service path : string)
    (response : token_response) (w : world) :
  path <> TOKEN_FILE ->
  files (snd (get_native_app_authorizer client_id service w)) !! path = files w !! path
  /\ files (snd (update_tokens_file_on_refresh response w)) !! path = files w !! path
  /\ files (snd (main w)) !! path = files w !! path.
Proof.
  intros Hp.
  assert (Hfactory : forall c s,
            files (snd (get_native_app_authorizer c s w)) !! path = files w !! path).
  { intros c s. destruct (factory_files c s w) as [-> | [text ->]]; [reflexivity|].
    apply lookup_insert_ne. congruence. }
  split; [apply Hfactory|]. split.
  - rewrite on_refresh_run. destruct (unwritable w TOKEN_FILE); cbn [snd];
      autorewrite with world; [reflexivity|].
    apply lookup_insert_ne. congruence.
  - rewrite main_files. apply Hfactory.
Qed.

Lemma only_the_token_file_changes_witness :
  files (snd (get_native_app_authorizer CLIENT_ID "search.api.globus.org" rejecting_world))
    !! "notes.txt" = files rejecting_world !! "notes.txt"
  /\ files (snd (update_tokens_file_on_refresh refresh_response rejecting_world))
       !! "notes.txt" = files rejecting_world !! "notes.txt"
  /\ files (snd (main rejecting_world)) !! "notes.txt" = files rejecting_world !! "notes.txt".
Proof.
  apply (only_the_token_file_changes CLIENT_ID "search.api.globus.org" "notes.txt"
           refresh_response rejecting_world).
  intros H. discriminate H.
Defined.
